(** * ORG1 organisms: the annotation codec, the covenant and the lineage walker

    A shallow embedding of the parts of utxo-organisms that decide the
    protocol: [decodeORG1] and [traceLineage] of scanner.cjs, the [claim]
    method of src/contracts/organism.ts, and the scripts spawn.cjs,
    claim.cjs and fund.cjs up to the transactions they build.

    JavaScript numbers are [jsnum] (an integer or NaN), strings are
    [string], Buffers are lists of byte values, bigints are [Z]. *)

From Stdlib Require Import ZArith List String Ascii Bool Lia QArith Qround.
Import ListNotations.
Local Open Scope string_scope.
Local Open Scope list_scope.
Local Open Scope Z_scope.

(** ** JavaScript and Node primitives used by the scripts *)

Module JS.

(** A JS number that holds an integer, or NaN ([None]).  Doubles are exact
    on integers below 2^53, which covers satoshi amounts, positions in a
    script and generation counters. *)
Definition jsnum := option Z.

Definition NaN : jsnum := None.

Definition jadd (a b : jsnum) : jsnum :=
  match a, b with Some x, Some y => Some (x + y) | _, _ => None end.

Definition jsub (a b : jsnum) : jsnum :=
  match a, b with Some x, Some y => Some (x - y) | _, _ => None end.

Definition jmul (a b : jsnum) : jsnum :=
  match a, b with Some x, Some y => Some (x * y) | _, _ => None end.

(** [a < b] and [a > b]: false as soon as one side is NaN. *)
Definition jlt (a b : jsnum) : bool :=
  match a, b with Some x, Some y => x <? y | _, _ => false end.

Definition jgt (a b : jsnum) : bool := jlt b a.

(** Truthiness of a number ([!n] is its negation): 0 and NaN are falsy. *)
Definition truthyNum (n : jsnum) : bool :=
  match n with Some x => negb (x =? 0) | None => false end.

(** Truthiness of a string that may be undefined or null. *)
Definition truthyStr (s : option string) : bool :=
  match s with
  | Some EmptyString => false
  | Some _ => true
  | None => false
  end.

(** ToIntegerOrInfinity on an index argument: NaN counts as 0. *)
Definition toIndex (n : jsnum) : Z :=
  match n with Some x => x | None => 0 end.

Definition len (s : string) : Z := Z.of_nat (String.length s).

(** A relative index of [slice]: negative counts from the end, and the
    result is clamped to the string. *)
Definition clampIndex (size i : Z) : Z :=
  if i <? 0 then Z.max (size + i) 0 else Z.min i size.

(** [s.slice(a, b)]. *)
Definition slice (s : string) (a b : jsnum) : string :=
  let from := clampIndex (len s) (toIndex a) in
  let to := clampIndex (len s) (toIndex b) in
  substring (Z.to_nat from) (Z.to_nat (Z.max (to - from) 0)) s.

(** [s.slice(a)]. *)
Definition sliceFrom (s : string) (a : jsnum) : string :=
  slice s a (Some (len s)).

(** [s.indexOf(pat)]: the first position of [pat] in [s], or -1. *)
Definition indexOf (pat s : string) : Z :=
  match index 0 pat s with
  | Some n => Z.of_nat n
  | None => -1
  end.

Definition code (c : ascii) : Z := Z.of_nat (nat_of_ascii c).

(** The value of a digit in the given radix (letters in either case). *)
Definition digitVal (radix : Z) (c : ascii) : option Z :=
  let n := code c in
  let v :=
    if (48 <=? n) && (n <=? 57) then Some (n - 48)
    else if (97 <=? n) && (n <=? 122) then Some (n - 87)
    else if (65 <=? n) && (n <=? 90) then Some (n - 55)
    else None in
  match v with
  | Some d => if d <? radix then Some d else None
  | None => None
  end.

(** White space that [parseInt] skips (the part of it an 8-bit string can
    hold). *)
Definition isWhite (c : ascii) : bool :=
  let n := code c in
  ((9 <=? n) && (n <=? 13)) || (n =? 32) || (n =? 160).

Fixpoint trimStart (s : string) : string :=
  match s with
  | String c s' => if isWhite c then trimStart s' else s
  | EmptyString => s
  end.

(** The digits of the longest prefix of [s] in the radix, accumulated. *)
Fixpoint parseDigits (radix acc : Z) (s : string) : Z :=
  match s with
  | String c s' =>
      match digitVal radix c with
      | Some d => parseDigits radix (radix * acc + d) s'
      | None => acc
      end
  | EmptyString => acc
  end.

Definition startsWithDigit (radix : Z) (s : string) : bool :=
  match s with
  | String c _ => match digitVal radix c with Some _ => true | None => false end
  | EmptyString => false
  end.

Definition strip0x (s : string) : option string :=
  match s with
  | String "0" (String "x" s') => Some s'
  | String "0" (String "X" s') => Some s'
  | _ => None
  end.

(** [parseInt(s, radix)]; radix 0 stands for the omitted argument.  Only
    radix 0 and 16 occur in the scripts. *)
Definition parseInt (s : string) (radix : Z) : jsnum :=
  let s := trimStart s in
  let '(sign, s) :=
    match s with
    | String "-" s' => (-1, s')
    | String "+" s' => (1, s')
    | _ => (1, s)
    end in
  let '(radix, s) :=
    if (radix =? 0) || (radix =? 16) then
      match strip0x s with
      | Some s' => (16, s')
      | None => ((if radix =? 0 then 10 else radix), s)
      end
    else (radix, s) in
  if startsWithDigit radix s then Some (sign * parseDigits radix 0 s) else NaN.

(** *** Buffers *)

Definition Buffer := list Z.

Definition hexDigit (n : Z) : ascii :=
  if n <? 10 then ascii_of_nat (Z.to_nat (48 + n))
  else ascii_of_nat (Z.to_nat (87 + n)).

Definition byteHex (b : Z) : string :=
  String (hexDigit (b / 16)) (String (hexDigit (b mod 16)) EmptyString).

(** [buf.toString('hex')]. *)
Fixpoint toHex (b : Buffer) : string :=
  match b with
  | [] => EmptyString
  | x :: b' => (byteHex x ++ toHex b')%string
  end.

(** [Buffer.from(s, 'hex')]: pairs of hex digits up to the first pair that
    is not one; a trailing single digit is dropped. *)
Fixpoint fromHex (s : string) : Buffer :=
  match s with
  | String a (String b s') =>
      match digitVal 16 a, digitVal 16 b with
      | Some x, Some y => (16 * x + y) :: fromHex s'
      | _, _ => []
      end
  | _ => []
  end.

(** [buf.readUInt32LE(0)]; [None] is the RangeError of a buffer shorter
    than four bytes. *)
Definition readUInt32LE (b : Buffer) : option Z :=
  match b with
  | b0 :: b1 :: b2 :: b3 :: _ => Some (b0 + b1 * 2^8 + b2 * 2^16 + b3 * 2^24)
  | _ => None
  end.

(** [k] little-endian bytes of [m]. *)
Fixpoint leBytes (k : nat) (m : Z) : Buffer :=
  match k with
  | O => []
  | S k' => (m mod 256) :: leBytes k' (m / 256)
  end.

(** [Buffer.alloc(1).writeUInt8(v)] and [Buffer.alloc(4).writeUInt32LE(v)];
    [None] is the RangeError of a value out of range. *)
Definition writeUInt8 (v : Z) : option Buffer :=
  if (0 <=? v) && (v <=? 255) then Some (leBytes 1 v) else None.

Definition writeUInt32LE (v : Z) : option Buffer :=
  if (0 <=? v) && (v <=? 4294967295) then Some (leBytes 4 v) else None.

(** [Buffer.from('ORG1')]. *)
Definition ORG1_bytes : Buffer := [79; 82; 71; 49].

End JS.

Import JS.

(** ** scanner.cjs: decoding the ORG1 annotation *)

Module Codec.

(** The part of a transaction, as the block explorer returns it, that the
    scanner reads.  [value] is in coins, not satoshis. *)
Record ScriptPubKey := {
  hex : option string;
  addresses : option (list string)
}.

Record Vout := {
  value : Q;
  scriptPubKey : option ScriptPubKey
}.

Record Tx := {
  vout : list Vout;
  blockheight : option Z;
  blocktime : option Z
}.

(** The object [decodeORG1] returns. *)
Record ORG1 := {
  type : jsnum;
  generation : Z;
  spawnTxid : string;
  payload : string
}.

(** [decodeORG1] returns an object or null, or dies on the RangeError of
    [readUInt32LE]. *)
Inductive Decoded :=
| Found (r : ORG1)
| Null
| RangeError.

(** "ORG1" in hex. *)
Definition TAG : string := "4f524731".

(** [out.scriptPubKey?.hex]. *)
Definition hexOf (out : Vout) : option string :=
  match scriptPubKey out with
  | Some spk => hex spk
  | None => None
  end.

(** The body of [decodeORG1] from [let pos = 0] on; [None] when
    [readUInt32LE] throws. *)
Definition decodeFields (after : string) : option ORG1 :=
  let pos := Some 0 in
  (* type *)
  let typePushLen := parseInt (slice after pos (jadd pos (Some 2))) 16 in
  let pos := jadd pos (Some 2) in
  let type := parseInt (slice after pos (jadd pos (jmul typePushLen (Some 2)))) 16 in
  let pos := jadd pos (jmul typePushLen (Some 2)) in
  (* generation *)
  let genPushLen := parseInt (slice after pos (jadd pos (Some 2))) 16 in
  let pos := jadd pos (Some 2) in
  let genHex := slice after pos (jadd pos (jmul genPushLen (Some 2))) in
  let pos := jadd pos (jmul genPushLen (Some 2)) in
  let genBuf := fromHex genHex in
  match readUInt32LE genBuf with
  | None => None
  | Some generation =>
      (* spawn txid *)
      let spawnPushLen := parseInt (slice after pos (jadd pos (Some 2))) 16 in
      let pos := jadd pos (Some 2) in
      let spawnTxid := slice after pos (jadd pos (jmul spawnPushLen (Some 2))) in
      let pos := jadd pos (jmul spawnPushLen (Some 2)) in
      (* remaining = type-specific payload *)
      let payload := sliceFrom after pos in
      Some {| type := type; generation := generation;
              spawnTxid := spawnTxid; payload := payload |}
  end.

(** What the loop of [decodeORG1] does with one output: [None] is
    [continue]. *)
Definition decodeOutput (out : Vout) : option Decoded :=
  match hexOf out with
  | None => None
  | Some hex =>
      if negb (truthyStr (Some hex)) then None
      else
        let idx := indexOf TAG hex in
        if idx =? -1 then None
        else
          let after := sliceFrom hex (Some (idx + 8)) in
          if len after <? 2 + 2 + 8 + 2 + 64 then None
          else
            match decodeFields after with
            | Some r => Some (Found r)
            | None => Some RangeError
            end
  end.

Fixpoint decodeOutputs (outs : list Vout) : Decoded :=
  match outs with
  | [] => Null
  | out :: rest =>
      match decodeOutput out with
      | Some d => d
      | None => decodeOutputs rest
      end
  end.

Definition decodeORG1 (tx : Tx) : Decoded := decodeOutputs (vout tx).

(** An output that carries just a script. *)
Definition scriptOut (h : string) : Vout :=
  {| value := 0%Q;
     scriptPubKey := Some {| hex := Some h; addresses := None |} |}.

End Codec.

(** ** scanner.cjs: tracing a lineage *)

Module Walker.

Import Codec.

(** One generation of a lineage, as [traceLineage] writes it to the cache
    file.  [blockTime] is kept as the block's timestamp; the script stores
    its ISO rendering. *)
Record Entry := {
  generation : Z;
  txid : string;
  balance : Z;
  claimer : string;
  reward : Z;
  fee : Z;
  blockHeight : option Z;
  blockTime : option Z;
  alive : bool;
  org1 : option ORG1;
  spentBy : option string
}.

(** The two block-explorer queries of the walker: [getTx id] is
    [wocGet(`/tx/${id}`)], null on a 404; [getSpent id] is the [txid] of
    [wocGet(`/tx/${id}/0/spent`)], with a failed query counted as null. *)
Record Ledger := {
  getTx : string -> option Tx;
  getSpent : string -> option string
}.

(** [Math.round(value * 1e8)]: coins to satoshis. *)
Definition toSats (v : Q) : Z := Qfloor (v * (100000000 # 1) + (1 # 2))%Q.

(** [out.scriptPubKey?.addresses?.[0]]. *)
Definition firstAddress (out : Vout) : option string :=
  match scriptPubKey out with
  | Some spk =>
      match addresses spk with
      | Some (a :: _) => Some a
      | _ => None
      end
  | None => None
  end.

(** [getRewardAddress]: the address of the last output that has one. *)
Definition getRewardAddress (tx : Tx) : string :=
  match find (fun out => truthyStr (firstAddress out)) (rev (vout tx)) with
  | Some out =>
      match firstAddress out with
      | Some a => a
      | None => "unknown"
      end
  | None => "unknown"
  end.

(** [out.value > 0 && out.scriptPubKey?.addresses]. *)
Definition paysAddress (out : Vout) : bool :=
  negb (Qle_bool (value out) 0) &&
  match scriptPubKey out with
  | Some spk => match addresses spk with Some _ => true | None => false end
  | None => false
  end.

(** The reward of a transaction: the outputs after the first that pay an
    address, summed. *)
Definition sumRewards (outs : list Vout) : Z :=
  fold_left (fun acc out => if paysAddress out then acc + toSats (value out) else acc)
            (tl outs) 0.

(** [lineage[i]] for a JS number [i]. *)
Definition at_index (lineage : list Entry) (i : Z) : option Entry :=
  if i <? 0 then None else nth_error lineage (Z.to_nat i).

(** The variables of the [while] loop, and the list of the transactions
    fetched so far (the only trace the fetches leave). *)
Record State := {
  lineage : list Entry;
  currentTxid : option string;
  gen : Z;
  fetched : list string
}.

Inductive Step :=
| Next (s : State)      (* the body ran to its end *)
| Break (s : State)     (* the transaction could not be fetched *)
| Throw.                (* an exception left the loop *)

(** The entry built for transaction [tx], before the spent check. *)
Definition makeEntry (lineage : list Entry) (generation : Z)
    (currentTxid : string) (tx : Tx) (organismOutput : Vout)
    (org1 : option ORG1) : Entry :=
  let isSpawn := generation =? 0 in
  let balance := toSats (value organismOutput) in
  let blockHeight :=
    match blockheight tx with
    | Some h => if h =? 0 then None else Some h
    | None => None
    end in
  let blockTime :=
    match blocktime tx with
    | Some t => if t =? 0 then None else Some t
    | None => None
    end in
  let claimer := if isSpawn then "spawn" else getRewardAddress tx in
  let rewardSats := if isSpawn then 0 else sumRewards (vout tx) in
  let prevBalance :=
    if 0 <? generation then
      match at_index lineage (generation - 1) with
      | Some prev => Some (Walker.balance prev)
      | None => None
      end
    else None in
  let feePaid :=
    match prevBalance with
    | Some p => p - balance - rewardSats
    | None => 0
    end in
  {| generation := generation; txid := currentTxid; balance := balance;
     claimer := claimer; reward := rewardSats; fee := feePaid;
     blockHeight := blockHeight; blockTime := blockTime;
     alive := true; org1 := org1; spentBy := None |}.

(** One run of the loop body, entered with [currentTxid = cur]. *)
Definition body (L : Ledger) (s : State) (cur : string) : Step :=
  let log := fetched s ++ [cur] in
  match getTx L cur with
  | None =>
      Break {| lineage := lineage s; currentTxid := currentTxid s;
               gen := gen s; fetched := log |}
  | Some tx =>
      match vout tx with
      | [] => Throw                      (* tx.vout[0].value of undefined *)
      | organismOutput :: _ =>
          match decodeORG1 tx with
          | RangeError => Throw
          | decoded =>
              let org1 := match decoded with Found r => Some r | _ => None end in
              let entry := makeEntry (lineage s) (gen s) cur tx organismOutput org1 in
              let spentInfo := getSpent L cur in
              if truthyStr spentInfo then
                Next {| lineage :=
                          lineage s ++
                          [{| generation := generation entry; txid := txid entry;
                              balance := balance entry; claimer := claimer entry;
                              reward := reward entry; fee := fee entry;
                              blockHeight := blockHeight entry;
                              blockTime := blockTime entry;
                              alive := false; org1 := Walker.org1 entry;
                              spentBy := spentInfo |}];
                        currentTxid := spentInfo;
                        gen := gen s + 1;
                        fetched := log |}
              else
                Next {| lineage := lineage s ++ [entry];
                        currentTxid := None;
                        gen := gen s;
                        fetched := log |}
          end
      end
  end.

(** What [traceLineage] leaves behind: the lineage written to the cache
    file and returned, or an exception out of the loop, before anything is
    written. *)
Inductive Outcome :=
| Saved (s : State)
| Thrown.

(** [while (currentTxid) { ... }]; [None] when the fuel runs out. *)
Fixpoint loop (fuel : nat) (L : Ledger) (s : State) : option Outcome :=
  match fuel with
  | O => None
  | S fuel' =>
      match currentTxid s with
      | Some cur =>
          if truthyStr (Some cur) then
            match body L s cur with
            | Next s' => loop fuel' L s'
            | Break s' => Some (Saved s')
            | Throw => Some Thrown
            end
          else Some (Saved s)
      | None => Some (Saved s)
      end
  end.

Definition fresh (spawnTxid : string) : State :=
  {| lineage := []; currentTxid := Some spawnTxid; gen := 0; fetched := [] |}.

(** The state the loop starts in: from the spawn transaction, or from the
    cached lineage [existing] ([None]: no readable cache file). *)
Definition resume (existing : option (list Entry)) (spawnTxid : string) : State :=
  match existing with
  | Some (e :: rest) =>
      let last := List.last rest e in
      if truthyStr (spentBy last) then
        {| lineage := e :: rest; currentTxid := spentBy last;
           gen := generation last + 1; fetched := [] |}
      else if alive last then
        {| lineage := removelast (e :: rest); currentTxid := Some (txid last);
           gen := generation last; fetched := [] |}
      else fresh spawnTxid
  | _ => fresh spawnTxid
  end.

Definition traceLineage (fuel : nat) (L : Ledger)
    (existing : option (list Entry)) (spawnTxid : string) : option Outcome :=
  loop fuel L (resume existing spawnTxid).

(** One turn of the loop that leads back to its test. *)
Definition turn (L : Ledger) (s s' : State) : Prop :=
  exists cur, currentTxid s = Some cur /\ truthyStr (Some cur) = true /\
              body L s cur = Next s'.

(** The states the loop passes through, from [s]. *)
Inductive reaches (L : Ledger) (s : State) : State -> Prop :=
| reaches_refl : reaches L s s
| reaches_turn : forall s1 s2, reaches L s s1 -> turn L s1 s2 -> reaches L s s2.

End Walker.

(** ** src/contracts/organism.ts: the covenant *)

Module Contract.

(** A [ByteString] of scrypt-ts is a string of hex digits. *)
Definition ByteString := string.

Record Organism := {
  organismType : Z;
  reward : Z;
  fee : Z;
  dustLimit : Z;
  spawnTxid : ByteString;
  generation : Z
}.

(** [int2ByteString(n, size)] of scrypt-ts: [n] in sign-magnitude,
    little-endian, on exactly [size] bytes; [None] is the error thrown when
    [n] does not fit. *)
Definition int2ByteString (n size : Z) : option ByteString :=
  if n =? 0 then Some (toHex (leBytes (Z.to_nat size) 0))
  else if Z.abs n <? 2 ^ (8 * size - 1) then
    Some (toHex (leBytes (Z.to_nat size)
                         (Z.abs n + (if n <? 0 then 2 ^ (8 * size - 1) else 0))))
  else None.

(** The outputs of a transaction.  The covenant deals in three kinds of
    locking script: the contract's own script carrying a state, a data
    script given by its bytes, and a payment to a public key hash. *)
Inductive Script :=
| StateScript (o : Organism)
| DataScript (bytes : ByteString)
| P2PKH (pkh : ByteString).

Record Output := {
  script : Script;
  satoshis : Z
}.

(** [this.buildStateOutput], [Utils.buildOutput] and
    [Utils.buildPublicKeyHashOutput]. *)
Definition buildStateOutput (this : Organism) (amount : Z) : Output :=
  {| script := StateScript this; satoshis := amount |}.

Definition buildOutput (s : ByteString) (amount : Z) : Output :=
  {| script := DataScript s; satoshis := amount |}.

Definition buildPublicKeyHashOutput (pkh : ByteString) (amount : Z) : Output :=
  {| script := P2PKH pkh; satoshis := amount |}.

Definition nextGeneration (this : Organism) : Organism :=
  {| organismType := organismType this; reward := reward this;
     fee := fee this; dustLimit := dustLimit this;
     spawnTxid := spawnTxid this; generation := generation this + 1 |}.

(** The ORG1 script of [claim], for a state whose generation is already
    incremented. *)
Definition opReturnScript (this : Organism) : option ByteString :=
  match int2ByteString (organismType this) 1,
        int2ByteString (generation this) 4 with
  | Some typeBytes, Some genBytes =>
      Some ("006a" ++ "04" ++ "4f524731" ++ "01" ++ typeBytes ++
            "04" ++ genBytes ++ "20" ++ spawnTxid this)%string
  | _, _ => None
  end.

(** The [outputs] that [claim] builds from the value of the spent output,
    with the state after [this.generation++]; [None] when
    [int2ByteString] throws. *)
Definition claimOutputs (this : Organism) (utxoValue : Z)
    (claimerPkh : ByteString) : option (Organism * list Output) :=
  let currentBalance := utxoValue in
  let nextBalance := currentBalance - reward this - fee this in
  let this := nextGeneration this in
  let alive := dustLimit this <=? nextBalance in
  let outputs := if alive then [buildStateOutput this nextBalance] else [] in
  match opReturnScript this with
  | Some s =>
      Some (this,
            outputs ++ [buildOutput s 0] ++
            [buildPublicKeyHashOutput claimerPkh (reward this)])
  | None => None
  end.

Definition Organism_eq_dec (a b : Organism) : {a = b} + {a <> b}.
Proof. decide equality; auto using Z.eq_dec, string_dec. Defined.

Definition Script_eq_dec (a b : Script) : {a = b} + {a <> b}.
Proof. decide equality; auto using Organism_eq_dec, string_dec. Defined.

Definition Output_eq_dec (a b : Output) : {a = b} + {a <> b}.
Proof. decide equality; auto using Z.eq_dec, Script_eq_dec. Defined.

(** What [claim] sees of the spending transaction. *)
Record Context := {
  utxoValue : Z;
  txOutputs : list Output
}.

(** [claim]: the new state when the assertion holds.  The assertion
    compares the hash of the transaction's outputs with the hash of
    [outputs]; it is taken here as the equality of what is hashed. *)
Definition claim (this : Organism) (ctx : Context) (claimerPkh : ByteString)
    : option Organism :=
  match claimOutputs this (utxoValue ctx) claimerPkh with
  | Some (this', outputs) =>
      if list_eq_dec Output_eq_dec (txOutputs ctx) outputs then Some this'
      else None
  | None => None
  end.

(** The public methods of the contract, the ones scrypt-ts lets a script
    bind a transaction builder to and call through [methods]: [claim] is
    the only one. *)
Definition publicMethods : list string := ["claim"].

Definition hasMethod (name : string) : bool :=
  existsb (String.eqb name) publicMethods.

End Contract.

(** ** The data script of the bsv library *)

Module Bsv.

(** A push of [buf]: its length as the opcode below 76 bytes, the
    PUSHDATA opcodes above. *)
Definition pushData (buf : Buffer) : Buffer :=
  let n := Z.of_nat (List.length buf) in
  if n <? 76 then n :: buf
  else if n <? 256 then 76 :: n :: buf
  else if n <? 65536 then 77 :: leBytes 2 n ++ buf
  else 78 :: leBytes 4 n ++ buf.

(** [bsv.Script.buildSafeDataOut(bufs)]: OP_FALSE OP_RETURN and one push
    per buffer. *)
Definition buildSafeDataOut (bufs : list Buffer) : Buffer :=
  [0; 106] ++ flat_map pushData bufs.

(** [new bsv.Transaction.Output({ script, satoshis })]: the library refuses
    an amount that is not a natural number. *)
Definition newOutput (s : Contract.Script) (satoshis : jsnum)
    : option Contract.Output :=
  match satoshis with
  | Some v =>
      if 0 <=? v then Some {| Contract.script := s; Contract.satoshis := v |}
      else None
  | None => None
  end.

End Bsv.

(** The ORG1 script as spawn.cjs, claim.cjs and fund.cjs all build it;
    [None] is the RangeError of [writeUInt32LE] or [writeUInt8]. *)
Definition org1Script (gen type : Z) (spawnTxid : string) : option string :=
  match writeUInt32LE gen, writeUInt8 type with
  | Some genBytes, Some typeBytes =>
      let spawnBytes := fromHex spawnTxid in
      Some (toHex (Bsv.buildSafeDataOut
                     [ORG1_bytes; typeBytes; genBytes; spawnBytes]))
  | _, _ => None
  end.

(** ** claim.cjs: building a reproduction *)

Module Claim.

Import Contract.

Inductive Result :=
| Exit1                              (* process.exit(1) *)
| Failed                             (* an exception reaches the final catch *)
| Broadcast (outs : list Output).    (* the transaction handed to wocBroadcast *)

(** The transaction builder bound to [claim]: the outputs, in order;
    [None] when [new bsv.Transaction.Output], [writeUInt32LE] or
    [writeUInt8] throws. *)
Definition txBuilder (organism : Organism) (balance : Z) (addr : ByteString)
    : option (list Output) :=
  let currentBalance := balance in
  let nextBalance := currentBalance - reward organism - fee organism in
  let alive := dustLimit organism <=? nextBalance in
  let gen := generation organism in
  let nextInstance := nextGeneration organism in
  match (if alive
         then option_map (fun out => [out])
                (Bsv.newOutput (StateScript nextInstance) (Some nextBalance))
         else Some []),
        org1Script (gen + 1) (organismType organism) (spawnTxid organism),
        Bsv.newOutput (P2PKH addr) (Some (reward organism)) with
  | Some continuation, Some opReturnScript, Some rewardOut =>
      Some (continuation ++
            [{| script := DataScript opReturnScript; satoshis := 0 |};
             rewardOut])
  | _, _, _ => None
  end.

(** [claim()]: the organism read from the chain with its balance, the
    answer of the spent query, and the claimer's public key hash.  The
    builder is bound to the contract's public method [claim], which runs
    it and checks its transaction against the covenant. *)
Definition claim (organism : Organism) (balance : Z)
    (spentInfo : option string) (addr : ByteString) : Result :=
  if truthyStr spentInfo then Exit1
  else if hasMethod "claim" then
    match txBuilder organism balance addr with
    | Some outs =>
        match Contract.claim organism
                {| utxoValue := balance; txOutputs := outs |} addr with
        | Some _ => Broadcast outs
        | None => Failed
        end
    | None => Failed
    end
  else Failed.

End Claim.

(** ** fund.cjs: feeding an organism *)

Module Fund.

Import Contract.

(** The command-line arguments, as the argument loop leaves them. *)
Record Args := {
  txid : option string;
  amount : option string;
  fee : option string
}.

(** [x || d] on an argument. *)
Definition orElse (x : option string) (d : string) : string :=
  match x with
  | Some s => if truthyStr (Some s) then s else d
  | None => d
  end.

Definition TXID (args : Args) : option string := txid args.
Definition AMOUNT (args : Args) : jsnum := parseInt (orElse (amount args) "0") 0.
Definition FEE (args : Args) : jsnum := parseInt (orElse (fee args) "3000") 0.

(** [!TXID || !AMOUNT]: the usage message and exit. *)
Definition usage (args : Args) : bool :=
  negb (truthyStr (TXID args)) || negb (truthyNum (AMOUNT args)).

Record Utxo := {
  tx_hash : string;
  tx_pos : Z;
  value : Z
}.

(** [utxos.reduce((s, u) => s + u.value, 0)]. *)
Definition sumValues (utxos : list Utxo) : Z :=
  fold_left (fun s u => s + value u) utxos 0.

Inductive Result :=
| Exit1                          (* process.exit(1) *)
| Failed                         (* an exception reaches the final catch,
                                    which exits with 1 *)
| Built (outs : list Output).    (* the transaction of the builder, run by
                                    the contract's method *)

(** The transaction builder that [fund()] binds to the name [fund]: the
    outputs, in order; [None] when [new bsv.Transaction.Output],
    [writeUInt32LE] or [writeUInt8] throws. *)
Definition txBuilder (organism : Organism) (newBalance : jsnum)
    (hasChange : bool) (changeForContract : jsnum)
    (fundingAddress : ByteString) : option (list Output) :=
  let nextInstance := organism in
  let gen := generation organism in
  match Bsv.newOutput (StateScript nextInstance) newBalance,
        org1Script gen (organismType organism) (spawnTxid organism),
        (if hasChange
         then option_map (fun out => [out])
                (Bsv.newOutput (P2PKH fundingAddress) changeForContract)
         else Some []) with
  | Some out0, Some opReturnScript, Some change =>
      Some ([out0; {| script := DataScript opReturnScript; satoshis := 0 |}]
            ++ change)
  | _, _, _ => None
  end.

(** [fund()], for a wallet file that exists: the organism read from the
    chain with its balance, the answer of the spent query, the funder's
    address and unspent outputs.  [organism.bindTxBuilder('fund', ...)]
    and [organism.methods.fund(...)] need a public method [fund] of the
    contract: without one the builder is never run, and the exception
    ends [fund()] in the final catch. *)
Definition fund (args : Args) (organism : Organism) (balance : Z)
    (spentInfo : option string) (fundingAddress : ByteString)
    (utxos : option (list Utxo)) : Result :=
  if usage args then Exit1
  else if truthyStr spentInfo then Exit1
  else
    let currentBalance := Some balance in
    let newBalance := jadd currentBalance (AMOUNT args) in
    match utxos with
    | None | Some [] => Exit1
    | Some utxos =>
        let totalAvailable := Some (sumValues utxos) in
        let needed := jadd (AMOUNT args) (FEE args) in
        if jlt totalAvailable needed then Exit1
        else if hasMethod "fund" then
          let totalIn := jadd currentBalance totalAvailable in
          let changeForContract := jsub (jsub totalIn newBalance) (FEE args) in
          let hasChange := jgt changeForContract (Some 546) in
          match txBuilder organism newBalance hasChange changeForContract
                  fundingAddress with
          | Some outs => Built outs
          | None => Failed
          end
        else Failed
    end.

End Fund.

(** ** Notions the properties are stated with *)

Module Spec.

Import Codec.

Definition lowerHexChar (c : ascii) : bool :=
  let n := code c in
  ((48 <=? n) && (n <=? 57)) || ((97 <=? n) && (n <=? 102)).

Fixpoint lowerHex (s : string) : bool :=
  match s with
  | String c s' => lowerHexChar c && lowerHex s'
  | EmptyString => true
  end.

(** A 32-byte identifier in hex, as the block explorer and the contract
    state hold it. *)
Definition isTxid (s : string) : bool :=
  (String.length s =? 64)%nat && lowerHex s.

(** A well-formed annotation record: a species byte, a generation that
    fits four bytes, a 32-byte lineage origin.  The payload is what follows
    the three fixed pushes in the script, and is not constrained. *)
Definition valid (r : ORG1) : Prop :=
  exists ty, type r = Some ty /\ 0 <= ty <= 255 /\
             0 <= generation r <= 4294967295 /\
             isTxid (spawnTxid r) = true.

(** The script of a record: the three fixed pushes as the builders write
    them, then the payload pushes (the layout of docs/SCHEMA.md; with an
    empty payload this is the script of spawn.cjs, claim.cjs and
    fund.cjs). *)
Definition encode (r : ORG1) : option string :=
  match type r with
  | Some ty =>
      match org1Script (generation r) ty (spawnTxid r) with
      | Some s => Some (s ++ payload r)%string
      | None => None
      end
  | None => None
  end.

Definition isByte (b : Z) : Prop := 0 <= b <= 255.

(** A transaction reduced to its outputs. *)
Definition txOf (outs : list Vout) : Tx :=
  {| vout := outs; blockheight := None; blocktime := None |}.

(** The states of a contract that [claim] can write an annotation for. *)
Definition encodable (o : Contract.Organism) : Prop :=
  0 <= Contract.organismType o <= 127 /\
  0 <= Contract.generation o + 1 <= 2147483647.

(** The links between the entries one walk appends: from the
    transaction and generation the walk is at, through the entries, to the
    transaction and generation it is at afterwards.  An entry is appended
    for the current transaction, and either records its spender and hands
    over to it, or stays alive and leaves no current transaction. *)
Inductive chain : option string -> Z -> list Walker.Entry ->
                  option string -> Z -> Prop :=
| chain_nil : forall cur g, chain cur g [] cur g
| chain_snoc : forall cur g app cur1 g1 e cur2 g2,
    chain cur g app cur1 g1 ->
    cur1 = Some (Walker.txid e) ->
    Walker.generation e = g1 ->
    (Walker.alive e = false /\ truthyStr (Walker.spentBy e) = true /\
     cur2 = Walker.spentBy e /\ g2 = g1 + 1) \/
    (Walker.alive e = true /\ Walker.spentBy e = None /\
     cur2 = None /\ g2 = g1) ->
    chain cur g (app ++ [e]) cur2 g2.

(** What a lineage written by the walker looks like: entry [i] is of
    generation [i], and an entry without a recorded spender is alive. *)
Definition walkerTrace (l : list Walker.Entry) : Prop :=
  (forall i e, nth_error l i = Some e -> Walker.generation e = Z.of_nat i) /\
  (forall e, In e l -> truthyStr (Walker.spentBy e) = false ->
             Walker.alive e = true).

Definition cacheOk (existing : option (list Walker.Entry)) : Prop :=
  match existing with
  | Some l => walkerTrace l
  | None => True
  end.

(** The fee and reward an entry at index [i] of lineage [l] must record. *)
Definition feeFacts (l : list Walker.Entry) (i : nat) (e : Walker.Entry) : Prop :=
  (i = 0%nat -> Walker.fee e = 0 /\ Walker.reward e = 0) /\
  (forall p, (0 < i)%nat -> nth_error l (i - 1) = Some p ->
             Walker.fee e = Walker.balance p - Walker.balance e - Walker.reward e).

End Spec.

(** ** Concrete inputs *)

Module Examples.

Import Codec Spec.

(** A data script cut right after the species push. *)
Definition hexTruncated : string := "006a044f5247310100".

(** A payment script: no tag at all. *)
Definition hexNoTag : string :=
  "76a914000102030405060708090a0b0c0d0e0f1011121388ac".

(** A script that is no OP_FALSE OP_RETURN script and merely holds the
    bytes c4 f5 24 73 10 ...: the hex of the tag starts inside a byte. *)
Definition hexIncidental : string :=
  "c4f52473101000401000000201111111111111111111111111111111111111111111111111111111111111111" ++ "0".

Definition incidentalRecord : ORG1 :=
  {| type := Some 0; generation := 1;
     spawnTxid := "1111111111111111111111111111111111111111111111111111111111111111";
     payload := "0" |}.

(** The annotation of generation 258 of a species-0 organism. *)
Definition hexAnnotated : string :=
  "006a044f52473101000402010000200000000000000000000000000000000000000000000000000000000000000000".

Definition zeroTxid : string :=
  "0000000000000000000000000000000000000000000000000000000000000000".

(** A record of generation 258 of species 200, with one payload push. *)
Definition sampleRecord : ORG1 :=
  {| type := Some 200; generation := 258;
     spawnTxid := zeroTxid; payload := "02beef" |}.

(** The organism of the README: species 0, reward 1000, fee 3000, dust
    limit 546, as spawn.cjs creates it. *)
Definition organismA : Contract.Organism :=
  {| Contract.organismType := 0; Contract.reward := 1000;
     Contract.fee := 3000; Contract.dustLimit := 546;
     Contract.spawnTxid := zeroTxid; Contract.generation := 0 |}.

Definition claimer : string := "00112233445566778899aabbccddeeff00112233".
Definition funder : string := "ffeeddccbbaa99887766554433221100ffeeddcc".

(** [--txid <id> --amount 20000] and [--txid <id> --amount -5]. *)
Definition argsFeed : Fund.Args :=
  {| Fund.txid := Some zeroTxid; Fund.amount := Some "20000"; Fund.fee := None |}.



Definition funderUtxos : list Fund.Utxo :=
  [{| Fund.tx_hash := zeroTxid; Fund.tx_pos := 1; Fund.value := 30000 |}].

Definition idSpawn : string :=
  "aaaaaaaaaaaaaaaaaaaaaaaaaaaaaaaaaaaaaaaaaaaaaaaaaaaaaaaaaaaaaaaa".
Definition idGen1 : string :=
  "bbbbbbbbbbbbbbbbbbbbbbbbbbbbbbbbbbbbbbbbbbbbbbbbbbbbbbbbbbbbbbbb".

(** The spawn transaction of an organism of 100000 satoshis, and its
    first reproduction: continuation of 96000, annotation, reward of 1000. *)
Definition txSpawn : Tx :=
  {| vout := [{| value := (100000 # 100000000)%Q;
                 scriptPubKey := Some {| hex := Some "51"; addresses := None |} |};
              scriptOut "006a044f52473101000400000000200000000000000000000000000000000000000000000000000000000000000000"];
     blockheight := Some 800000; blocktime := Some 1700000000 |}.

Definition txGen1 : Tx :=
  {| vout := [{| value := (96000 # 100000000)%Q;
                 scriptPubKey := Some {| hex := Some "51"; addresses := None |} |};
              scriptOut "006a044f52473101000401000000200000000000000000000000000000000000000000000000000000000000000000";
              {| value := (1000 # 100000000)%Q;
                 scriptPubKey := Some {| hex := Some hexNoTag;
                                         addresses := Some ["1Claimer"] |} |}];
     blockheight := Some 800001; blocktime := Some 1700000600 |}.

(** A ledger that holds these two transactions; the first output of the
    spawn is spent by the reproduction, whose own is unspent. *)
Definition ledger2 : Walker.Ledger :=
  {| Walker.getTx := fun id =>
       if (id =? idSpawn)%string then Some txSpawn
       else if (id =? idGen1)%string then Some txGen1 else None;
     Walker.getSpent := fun id =>
       if (id =? idSpawn)%string then Some idGen1 else None |}.

(** The two entries of that lineage. *)
Definition entry0 : Walker.Entry :=
  {| Walker.generation := 0; Walker.txid := idSpawn; Walker.balance := 100000;
     Walker.claimer := "spawn"; Walker.reward := 0; Walker.fee := 0;
     Walker.blockHeight := Some 800000; Walker.blockTime := Some 1700000000;
     Walker.alive := false;
     Walker.org1 := Some {| type := Some 0; generation := 0;
                            spawnTxid := zeroTxid; payload := EmptyString |};
     Walker.spentBy := Some idGen1 |}.

Definition entry1 : Walker.Entry :=
  {| Walker.generation := 1; Walker.txid := idGen1; Walker.balance := 96000;
     Walker.claimer := "1Claimer"; Walker.reward := 1000; Walker.fee := 3000;
     Walker.blockHeight := Some 800001; Walker.blockTime := Some 1700000600;
     Walker.alive := true;
     Walker.org1 := Some {| type := Some 0; generation := 1;
                            spawnTxid := zeroTxid; payload := EmptyString |};
     Walker.spentBy := None |}.

(** The loop's variables on that ledger: after the spawn, at the end of
    the walk, and on resuming from the two cached entries. *)
Definition walk1 : Walker.State :=
  {| Walker.lineage := [entry0]; Walker.currentTxid := Some idGen1;
     Walker.gen := 1; Walker.fetched := [idSpawn] |}.

Definition walk2 : Walker.State :=
  {| Walker.lineage := [entry0; entry1]; Walker.currentTxid := None;
     Walker.gen := 1; Walker.fetched := [idSpawn; idGen1] |}.

Definition rewalk : Walker.State :=
  {| Walker.lineage := [entry0; entry1]; Walker.currentTxid := None;
     Walker.gen := 1; Walker.fetched := [idGen1] |}.

End Examples.

(** ** spawn.cjs: creating an organism *)

Module Spawn.

(** The command-line arguments, as the argument loop leaves them. *)
Record Args := {
  type : option string;
  budget : option string;
  reward : option string;
  fee : option string
}.

Definition TYPE (args : Args) : jsnum := parseInt (Fund.orElse (type args) "0") 0.
Definition BUDGET (args : Args) : jsnum := parseInt (Fund.orElse (budget args) "100000") 0.
Definition REWARD (args : Args) : jsnum := parseInt (Fund.orElse (reward args) "1000") 0.
Definition FEE (args : Args) : jsnum := parseInt (Fund.orElse (fee args) "3000") 0.
Definition DUST_LIMIT : Z := 546.
Definition SPAWN_FEE : Z := 3000.

(** [Math.floor(a / b)] on integers; [None] when the quotient is NaN or an
    infinity.  The quotient of two integers below 2^53 is floored
    exactly. *)
Definition floorDiv (a b : jsnum) : jsnum :=
  match a, b with
  | Some x, Some y => if y =? 0 then None else Some (x / y)
  | _, _ => None
  end.

(** The number of generations [spawn] announces. *)
Definition maxGens (args : Args) : jsnum :=
  floorDiv (jsub (BUDGET args) (Some DUST_LIMIT)) (jadd (REWARD args) (FEE args)).

(** The placeholder of generation 0, which does not know its own
    transaction. *)
Definition zeroTxid : Contract.ByteString :=
  "0000000000000000000000000000000000000000000000000000000000000000".

Inductive Result :=
| Exit1                          (* process.exit(1) *)
| Failed                         (* an exception reaches the final catch *)
| Assembled (organism : Contract.Organism) (outs : list Contract.Output).
                                 (* the transaction, before it is signed *)

(** [spawn()], up to the transaction it assembles, for a wallet file that
    exists: the funder's address and unspent outputs.  [BigInt] of a NaN
    argument throws when the organism is created. *)
Definition spawn (args : Args) (fundingAddress : Contract.ByteString)
    (utxos : option (list Fund.Utxo)) : Result :=
  match TYPE args, REWARD args, FEE args with
  | Some ty, Some rw, Some fe =>
      let organism :=
        {| Contract.organismType := ty; Contract.reward := rw;
           Contract.fee := fe; Contract.dustLimit := DUST_LIMIT;
           Contract.spawnTxid := zeroTxid; Contract.generation := 0 |} in
      match utxos with
      | None | Some [] => Exit1
      | Some utxos =>
          let totalAvailable := Some (Fund.sumValues utxos) in
          let needed := jadd (BUDGET args) (Some SPAWN_FEE) in
          if jlt totalAvailable needed then Exit1
          else
            match Bsv.newOutput (Contract.StateScript organism) (BUDGET args) with
            | None => Failed
            | Some out0 =>
                match writeUInt32LE 0, writeUInt8 ty with
                | Some genBytes, Some typeBytes =>
                    let spawnTxidBytes := repeat 0 32 in
                    let opReturnScript :=
                      toHex (Bsv.buildSafeDataOut
                               [ORG1_bytes; typeBytes; genBytes; spawnTxidBytes]) in
                    let change :=
                      jsub (jsub totalAvailable (BUDGET args)) (Some SPAWN_FEE) in
                    Assembled organism
                      ([out0;
                        {| Contract.script := Contract.DataScript opReturnScript;
                           Contract.satoshis := 0 |}] ++
                       (if jgt change (Some DUST_LIMIT)
                        then [{| Contract.script := Contract.P2PKH fundingAddress;
                                 Contract.satoshis := toIndex change |}]
                        else []))
                | _, _ => Failed
                end
            end
      end
  | _, _, _ => Failed
  end.

End Spawn.

(** ** scanner.cjs: the summary of a trace, the cache files and the scan *)

Module Report.

Import Walker.

(** What the summary prints: the last entry, the number of claims and the
    number of distinct claimers. *)
Record Summary := {
  living : Entry;
  totalClaims : nat;
  uniqueClaimers : nat
}.

(** The summary of [traceLineage]; [None] is the TypeError of
    [living.alive] on an empty lineage. *)
Definition summarize (lineage : list Entry) : option Summary :=
  let totalClaims :=
    List.length (filter (fun e => 0 <? generation e) lineage) in
  let uniqueClaimers :=
    List.length
      (nodup string_dec
         (map claimer
              (filter (fun e => negb (claimer e =? "spawn")%string) lineage))) in
  match lineage with
  | [] => None
  | e :: rest =>
      Some {| living := List.last rest e; totalClaims := totalClaims;
              uniqueClaimers := uniqueClaimers |}
  end.

(** The summary line: ALIVE or DEAD. *)
Definition reportsAlive (s : Summary) : bool := alive (living s).

(** How a call of [traceLineage] ends. *)
Inductive Final :=
| Rejected                               (* exception in the loop: nothing written *)
| WrittenThenRejected (l : list Entry)   (* written, then the summary throws *)
| Returned (l : list Entry) (s : Summary).

Definition finish (o : Outcome) : Final :=
  match o with
  | Thrown => Rejected
  | Saved s =>
      match summarize (lineage s) with
      | Some sm => Returned (lineage s) sm
      | None => WrittenThenRejected (lineage s)
      end
  end.

(** The lineage directory: the content of the file of each key, [None]
    for a file that is missing or unreadable. *)
Definition Store := string -> option (list Entry).

(** The name of the cache file of a lineage:
    [spawnTxid.slice(0, 16)]. *)
Definition cacheKey (spawnTxid : string) : string :=
  slice spawnTxid (Some 0) (Some 16).

Definition write (st : Store) (key : string) (l : list Entry) : Store :=
  fun k => if (k =? key)%string then Some l else st k.

(** [traceLineage] with its cache file read and written. *)
Definition traceStored (fuel : nat) (L : Ledger) (st : Store)
    (spawnTxid : string) : option (Store * Final) :=
  let key := cacheKey spawnTxid in
  match traceLineage fuel L (st key) spawnTxid with
  | Some (Saved s) => Some (write st key (lineage s), finish (Saved s))
  | Some Thrown => Some (st, Rejected)
  | None => None
  end.

(** [scanAll] over the spawn transactions of the organisms directory: the
    store it leaves, and whether every trace returned.  An exception of one
    trace ends the scan. *)
Fixpoint scanAll (fuel : nat) (L : Ledger) (st : Store) (ids : list string)
    : option (Store * bool) :=
  match ids with
  | [] => Some (st, true)
  | id :: rest =>
      match traceStored fuel L st id with
      | Some (st', Returned _ _) => scanAll fuel L st' rest
      | Some (st', _) => Some (st', false)
      | None => None
      end
  end.

End Report.

(** ** Generations of one organism, one reproduction after the other *)

Module Lifespan.

Import Contract.

(** The organism and balance that the first output carries on, when it is
    a continuation: the output the next reproduction spends. *)
Definition continuation (outs : list Output) : option (Organism * Z) :=
  match outs with
  | {| script := StateScript o; satoshis := v |} :: _ => Some (o, v)
  | _ => None
  end.

(** [k] reproductions in a row, each spending the continuation of the one
    before, as the contract's [claim] allows them; [None] once there is no
    continuation to spend. *)
Fixpoint reproduce (k : nat) (o : Organism) (balance : Z) (pkh : ByteString)
    : option (Organism * Z) :=
  match k with
  | O => Some (o, balance)
  | S k' =>
      match claimOutputs o balance pkh with
      | Some (_, outs) =>
          match continuation outs with
          | Some (o', balance') => reproduce k' o' balance' pkh
          | None => None
          end
      | None => None
      end
  end.

(** The value of a list of outputs. *)
Definition total (outs : list Output) : Z :=
  fold_right (fun out s => satoshis out + s) 0 outs.

(** The state [k] generations on: only the generation counter moves. *)
Definition aged (o : Organism) (k : Z) : Organism :=
  {| organismType := organismType o; reward := reward o; fee := fee o;
     dustLimit := dustLimit o; spawnTxid := spawnTxid o;
     generation := generation o + k |}.

End Lifespan.

(** ** More notions and inputs *)

Module Notions.

Import Walker.

(** The chain of spends from a transaction comes to an end: at a
    transaction the ledger does not have, at one whose first output is
    unspent, or further on. *)
Inductive finiteChain (L : Ledger) : string -> Prop :=
| finite_missing : forall cur, getTx L cur = None -> finiteChain L cur
| finite_tip : forall cur,
    truthyStr (getSpent L cur) = false -> finiteChain L cur
| finite_next : forall cur next,
    getSpent L cur = Some next -> finiteChain L next -> finiteChain L cur.

(** The entries of a lineage are linked: each entry but the last is
    spent by the next, and the generations count up by one. *)
Definition linked (l : list Entry) : Prop :=
  forall i e e', nth_error l i = Some e -> nth_error l (S i) = Some e' ->
    alive e = false /\ spentBy e = Some (txid e') /\
    generation e' = generation e + 1.

(** A lineage as the walker leaves it: linked, starting at generation 0,
    each entry alive exactly when it records no spender, and no entry
    without a transaction. *)
Definition lineageOk (l : list Entry) : Prop :=
  linked l /\
  (forall e, In e l ->
     alive e = negb (truthyStr (spentBy e)) /\
     truthyStr (Some (txid e)) = true) /\
  (forall e, hd_error l = Some e -> generation e = 0).

(** A ledger that has the spawn of [Examples.ledger2] but not its
    spender. *)
Definition ledgerCut : Ledger :=
  {| getTx := fun id =>
       if (id =? Examples.idSpawn)%string then Some Examples.txSpawn else None;
     getSpent := fun id =>
       if (id =? Examples.idSpawn)%string then Some Examples.idGen1 else None |}.

(** A ledger whose spawn carries an annotation with a generation push of
    three bytes. *)
Definition txShortGen : Codec.Tx :=
  {| Codec.vout :=
       [Codec.scriptOut
          "006a044f5247310100030100002000000000000000000000000000000000000000000000000000000000000000000000"];
     Codec.blockheight := None; Codec.blocktime := None |}.

Definition ledgerShortGen : Ledger :=
  {| getTx := fun id =>
       if (id =? Examples.idSpawn)%string then Some txShortGen else None;
     getSpent := fun _ => None |}.

Definition argsDefault : Spawn.Args :=
  {| Spawn.type := None; Spawn.budget := None;
     Spawn.reward := None; Spawn.fee := None |}.

Definition argsType200 : Spawn.Args :=
  {| Spawn.type := Some "200"; Spawn.budget := None;
     Spawn.reward := None; Spawn.fee := None |}.

Definition spawnUtxos : list Fund.Utxo :=
  [{| Fund.tx_hash := Examples.zeroTxid; Fund.tx_pos := 0; Fund.value := 150000 |}].

(** The organism that [spawn.cjs --type 200] creates. *)
Definition organism200 : Contract.Organism :=
  {| Contract.organismType := 200; Contract.reward := 1000;
     Contract.fee := 3000; Contract.dustLimit := 546;
     Contract.spawnTxid := Spawn.zeroTxid; Contract.generation := 0 |}.

End Notions.

(** * Properties *)

Import Codec Spec.

(** ** Strings and slices *)

Section Strings.

Lemma append_assoc (a b c : string) : ((a ++ b) ++ c = a ++ (b ++ c))%string.
Proof. induction a as [|x a IH]; simpl; [reflexivity | now rewrite IH]. Qed.

Lemma append_nil_r (a : string) : (a ++ EmptyString)%string = a.
Proof. induction a as [|x a IH]; simpl; [reflexivity | now rewrite IH]. Qed.

Lemma length_append (a b : string) :
  String.length (a ++ b) = (String.length a + String.length b)%nat.
Proof. induction a as [|x a IH]; simpl; [reflexivity | now rewrite IH]. Qed.

Lemma len_append (a b : string) : len (a ++ b) = len a + len b.
Proof. unfold len. rewrite length_append. lia. Qed.

Lemma len_nonneg (a : string) : 0 <= len a.
Proof. unfold len. lia. Qed.

Lemma substring_skip (a b : string) (m : nat) :
  substring (String.length a) m (a ++ b) = substring 0 m b.
Proof.
  induction a as [|x a IH]; simpl; [reflexivity|].
  exact IH.
Qed.

Lemma substring_take (a b : string) :
  substring 0 (String.length a) (a ++ b) = a.
Proof.
  induction a as [|x a IH]; simpl.
  - destruct b; reflexivity.
  - now rewrite IH.
Qed.

Lemma substring_all (s : string) (m : nat) :
  (String.length s <= m)%nat -> substring 0 m s = s.
Proof.
  revert m. induction s as [|x s IH]; intros m H.
  - destruct m; reflexivity.
  - destruct m as [|m]; simpl in *; [lia|]. rewrite IH by lia. reflexivity.
Qed.

(** The slice that covers exactly the middle of three parts. *)
Lemma slice_mid (pre mid post : string) (i j : Z) :
  i = len pre -> j = i + len mid ->
  slice (pre ++ mid ++ post) (Some i) (Some j) = mid.
Proof.
  intros -> ->. unfold slice, toIndex, clampIndex.
  rewrite !len_append.
  pose proof (len_nonneg pre). pose proof (len_nonneg mid).
  pose proof (len_nonneg post).
  destruct (len pre <? 0) eqn:E1; [apply Z.ltb_lt in E1; lia|].
  destruct (len pre + len mid <? 0) eqn:E2; [apply Z.ltb_lt in E2; lia|].
  rewrite !Z.min_l by lia.
  replace (Z.max (len pre + len mid - len pre) 0) with (len mid) by lia.
  unfold len. rewrite !Nat2Z.id.
  rewrite substring_skip. apply substring_take.
Qed.

(** The slice from the end of a prefix on. *)
Lemma sliceFrom_skip (pre post : string) (i : Z) :
  i = len pre -> sliceFrom (pre ++ post) (Some i) = post.
Proof.
  intros ->. unfold sliceFrom, slice, toIndex, clampIndex.
  rewrite !len_append.
  pose proof (len_nonneg pre). pose proof (len_nonneg post).
  destruct (len pre <? 0) eqn:E1; [apply Z.ltb_lt in E1; lia|].
  destruct (len pre + len post <? 0) eqn:E2; [apply Z.ltb_lt in E2; lia|].
  rewrite !Z.min_l by lia.
  replace (Z.max (len pre + len post - len pre) 0) with (len post) by lia.
  unfold len. rewrite !Nat2Z.id.
  rewrite substring_skip. apply substring_all. lia.
Qed.

End Strings.

(** ** Hex digits, bytes and buffers *)

Section Hex.

Lemma byte_cases (f : Z -> bool) :
  forallb f (map Z.of_nat (seq 0 256)) = true ->
  forall b, 0 <= b <= 255 -> f b = true.
Proof.
  intros H b Hb. rewrite forallb_forall in H. apply H.
  apply in_map_iff. exists (Z.to_nat b). split; [lia|].
  apply in_seq. lia.
Qed.

Lemma parseInt_byteHex (b : Z) :
  0 <= b <= 255 -> parseInt (byteHex b) 16 = Some b.
Proof.
  intros Hb.
  pose proof (byte_cases
    (fun b => match parseInt (byteHex b) 16 with
              | Some v => v =? b
              | None => false
              end) eq_refl b Hb) as H.
  simpl in H. destruct (parseInt (byteHex b) 16); [|discriminate].
  apply Z.eqb_eq in H. now subst.
Qed.

Lemma fromHex_byteHex_one (b : Z) :
  0 <= b <= 255 -> fromHex (byteHex b) = [b] /\
  exists c1 c2, byteHex b = String c1 (String c2 EmptyString) /\
                digitVal 16 c1 = Some (b / 16) /\
                digitVal 16 c2 = Some (b mod 16).
Proof.
  intros Hb.
  pose proof (byte_cases
    (fun b => match byteHex b with
              | String c1 (String c2 EmptyString) =>
                  match digitVal 16 c1, digitVal 16 c2 with
                  | Some x, Some y => (x =? b / 16) && (y =? b mod 16)
                  | _, _ => false
                  end
              | _ => false
              end) eq_refl b Hb) as H.
  simpl in H. unfold byteHex in *.
  set (c1 := hexDigit (b / 16)) in *. set (c2 := hexDigit (b mod 16)) in *.
  destruct (digitVal 16 c1) as [x|] eqn:E1; [|discriminate].
  destruct (digitVal 16 c2) as [y|] eqn:E2; [|discriminate].
  apply andb_true_iff in H. destruct H as [Hx Hy].
  apply Z.eqb_eq in Hx, Hy. subst x y. split.
  - cbn [fromHex]. rewrite E1, E2. f_equal.
    Z.div_mod_to_equations. lia.
  - exists c1, c2. auto.
Qed.

Lemma fromHex_byteHex (b : Z) (s : string) :
  0 <= b <= 255 -> fromHex (byteHex b ++ s) = b :: fromHex s.
Proof.
  intros Hb. destruct (fromHex_byteHex_one b Hb) as [_ (c1 & c2 & E & E1 & E2)].
  rewrite E. cbn [append fromHex]. rewrite E1, E2. f_equal.
  Z.div_mod_to_equations. lia.
Qed.

Lemma fromHex_toHex (bs : Buffer) :
  Forall isByte bs -> fromHex (toHex bs) = bs.
Proof.
  induction 1 as [|b bs Hb _ IH]; [reflexivity|].
  cbn [toHex]. rewrite fromHex_byteHex by exact Hb. now rewrite IH.
Qed.

Lemma leBytes_isByte (k : nat) (m : Z) : Forall isByte (leBytes k m).
Proof.
  revert m. induction k as [|k IH]; intros m; simpl; constructor.
  - unfold isByte. pose proof (Z.mod_pos_bound m 256). lia.
  - apply IH.
Qed.

Lemma toHex_app (a b : Buffer) : toHex (a ++ b) = (toHex a ++ toHex b)%string.
Proof.
  induction a as [|x a IH]; [reflexivity|].
  cbn [toHex List.app]. rewrite IH. now rewrite append_assoc.
Qed.

Lemma len_byteHex (b : Z) : len (byteHex b) = 2.
Proof. reflexivity. Qed.

Lemma len_toHex (bs : Buffer) : len (toHex bs) = 2 * Z.of_nat (List.length bs).
Proof.
  induction bs as [|b bs IH]; [reflexivity|].
  cbn [toHex List.length]. rewrite len_append, len_byteHex, IH. lia.
Qed.

Lemma length_leBytes (k : nat) (m : Z) : List.length (leBytes k m) = k.
Proof. revert m. induction k as [|k IH]; intros m; simpl; [reflexivity | now rewrite IH]. Qed.

Lemma readUInt32LE_leBytes (g : Z) :
  0 <= g <= 4294967295 -> readUInt32LE (leBytes 4 g) = Some g.
Proof.
  intros Hg. unfold leBytes, readUInt32LE. f_equal.
  change (2 ^ 8) with 256. change (2 ^ 16) with 65536.
  change (2 ^ 24) with 16777216.
  Z.div_mod_to_equations. lia.
Qed.

(** A lower-case hex digit is the digit of its value. *)
Lemma lowerHexChar_digit (c : ascii) :
  lowerHexChar c = true ->
  exists v, digitVal 16 c = Some v /\ 0 <= v <= 15 /\ hexDigit v = c.
Proof.
  destruct c as [[] [] [] [] [] [] [] []]; intros H;
    try discriminate H;
    match goal with
    | |- exists v, digitVal 16 ?c = _ /\ _ =>
        let r := eval vm_compute in (digitVal 16 c) in
        match r with
        | Some ?v => exists v; vm_compute; repeat split; congruence
        end
    end.
Qed.

Lemma byteHex_digits (x y : Z) :
  0 <= x <= 15 -> 0 <= y <= 15 ->
  byteHex (16 * x + y) = String (hexDigit x) (String (hexDigit y) EmptyString).
Proof.
  intros Hx Hy. unfold byteHex.
  replace ((16 * x + y) / 16) with x by (Z.div_mod_to_equations; lia).
  replace ((16 * x + y) mod 16) with y by (Z.div_mod_to_equations; lia).
  reflexivity.
Qed.

(** Reading a lower-case hex string of [2 n] digits into a buffer and
    printing it back. *)
Lemma toHex_fromHex (n : nat) (s : string) :
  String.length s = (2 * n)%nat -> lowerHex s = true ->
  toHex (fromHex s) = s /\ List.length (fromHex s) = n.
Proof.
  revert s. induction n as [|n IH]; intros s Hl Hh.
  - destruct s; [split; reflexivity | discriminate].
  - destruct s as [|c1 [|c2 s]]; simpl in Hl; try lia.
    cbn [lowerHex] in Hh.
    apply andb_true_iff in Hh. destruct Hh as [H1 Hh].
    apply andb_true_iff in Hh. destruct Hh as [H2 Hh].
    destruct (lowerHexChar_digit c1 H1) as (x & Ex & Hx & Cx).
    destruct (lowerHexChar_digit c2 H2) as (y & Ey & Hy & Cy).
    destruct (IH s ltac:(lia) Hh) as [IH1 IH2].
    cbn [fromHex]. rewrite Ex, Ey. cbn [toHex List.length].
    rewrite byteHex_digits by assumption.
    rewrite Cx, Cy, IH1, IH2. split; reflexivity.
Qed.

Lemma isTxid_spec (s : string) :
  isTxid s = true ->
  len s = 64 /\ toHex (fromHex s) = s /\ List.length (fromHex s) = 32%nat.
Proof.
  unfold isTxid. intros H. apply andb_true_iff in H. destruct H as [Hl Hh].
  apply Nat.eqb_eq in Hl. split.
  - unfold len. rewrite Hl. reflexivity.
  - apply toHex_fromHex; [rewrite Hl; reflexivity | exact Hh].
Qed.

End Hex.

(** ** The annotation codec *)

Section CodecFacts.

(** The three fixed pushes, read back. *)
Lemma decodeFields_fixed (t : jsnum) (g : Z) (T G SP PL : string) :
  len T = 2 -> parseInt T 16 = t ->
  len G = 8 -> readUInt32LE (fromHex G) = Some g ->
  len SP = 64 ->
  decodeFields ("01" ++ T ++ "04" ++ G ++ "20" ++ SP ++ PL)
  = Some {| type := t; generation := g; spawnTxid := SP; payload := PL |}.
Proof.
  intros HT Ht HG Hg HSP.
  set (after := ("01" ++ T ++ "04" ++ G ++ "20" ++ SP ++ PL)%string).
  assert (S1 : slice after (Some 0) (Some 2) = "01").
  { apply (slice_mid EmptyString "01"); reflexivity. }
  assert (S2 : slice after (Some 2) (Some 4) = T).
  { apply (slice_mid "01" T); [reflexivity | lia]. }
  assert (S3 : slice after (Some 4) (Some 6) = "04").
  { unfold after. rewrite <- (append_assoc "01" T).
    apply (slice_mid ("01" ++ T) "04"); rewrite ?len_append; change (len "01") with 2; try lia.
    reflexivity. }
  assert (S4 : slice after (Some 6) (Some 14) = G).
  { unfold after. rewrite <- (append_assoc "01" T), <- (append_assoc _ "04").
    apply (slice_mid (("01" ++ T) ++ "04") G); rewrite ?len_append;
      change (len "01") with 2; change (len "04") with 2; lia. }
  assert (S5 : slice after (Some 14) (Some 16) = "20").
  { unfold after.
    rewrite <- (append_assoc "01" T), <- (append_assoc _ "04"), <- (append_assoc _ G).
    apply (slice_mid ((("01" ++ T) ++ "04") ++ G) "20"); rewrite ?len_append;
      change (len "01") with 2; change (len "04") with 2; try lia. reflexivity. }
  assert (S6 : slice after (Some 16) (Some 80) = SP).
  { unfold after.
    rewrite <- (append_assoc "01" T), <- (append_assoc _ "04"), <- (append_assoc _ G),
      <- (append_assoc _ "20").
    apply (slice_mid (((("01" ++ T) ++ "04") ++ G) ++ "20") SP); rewrite ?len_append;
      change (len "01") with 2; change (len "04") with 2; change (len "20") with 2; lia. }
  assert (S7 : sliceFrom after (Some 80) = PL).
  { unfold after.
    rewrite <- (append_assoc "01" T), <- (append_assoc _ "04"), <- (append_assoc _ G),
      <- (append_assoc _ "20"), <- (append_assoc _ SP).
    apply sliceFrom_skip. rewrite ?len_append.
    change (len "01") with 2; change (len "04") with 2; change (len "20") with 2; lia. }
  unfold decodeFields. fold after.
  cbn [jadd]. change (0 + 2) with 2. rewrite S1.
  change (parseInt "01" 16) with (Some 1). cbn [jadd jmul].
  change (2 + 1 * 2) with 4. rewrite S2, Ht.
  change (4 + 2) with 6. rewrite S3.
  change (parseInt "04" 16) with (Some 4). cbn [jadd jmul].
  change (6 + 4 * 2) with 14. rewrite S4, Hg.
  change (14 + 2) with 16. rewrite S5.
  change (parseInt "20" 16) with (Some 32). cbn [jadd jmul].
  change (16 + 32 * 2) with 80. rewrite S6, S7. reflexivity.
Qed.

Lemma pushData_short (buf : Buffer) (n : nat) :
  List.length buf = n -> (n < 76)%nat -> Bsv.pushData buf = Z.of_nat n :: buf.
Proof.
  intros <- H. unfold Bsv.pushData.
  destruct (Z.of_nat (List.length buf) <? 76) eqn:E; [reflexivity|].
  apply Z.ltb_ge in E. lia.
Qed.

(** The script of the builders, written out in hex. *)
Lemma org1Script_hex (g ty : Z) (sp : string) :
  0 <= g <= 4294967295 -> 0 <= ty <= 255 -> isTxid sp = true ->
  org1Script g ty sp
  = Some ("006a04" ++ TAG ++ "01" ++ byteHex ty ++ "04" ++
          toHex (leBytes 4 g) ++ "20" ++ sp)%string.
Proof.
  intros Hg Hty Hsp. destruct (isTxid_spec sp Hsp) as (_ & Hrt & Hlen).
  unfold org1Script, writeUInt32LE, writeUInt8.
  replace ((0 <=? g) && (g <=? 4294967295)) with true
    by (symmetry; apply andb_true_iff; split; apply Z.leb_le; lia).
  replace ((0 <=? ty) && (ty <=? 255)) with true
    by (symmetry; apply andb_true_iff; split; apply Z.leb_le; lia).
  f_equal. unfold Bsv.buildSafeDataOut. cbn [flat_map].
  rewrite (pushData_short ORG1_bytes 4) by (reflexivity || lia).
  rewrite (pushData_short (leBytes 1 ty) 1) by (reflexivity || lia).
  rewrite (pushData_short (leBytes 4 g) 4) by (apply length_leBytes || lia).
  rewrite (pushData_short (fromHex sp) 32) by (assumption || lia).
  rewrite app_nil_r.
  change (leBytes 1 ty) with [ty mod 256].
  rewrite Z.mod_small by lia.
  change (toHex ([0; 106] ++ (Z.of_nat 4 :: ORG1_bytes) ++ (Z.of_nat 1 :: [ty]) ++
                 (Z.of_nat 4 :: leBytes 4 g) ++ Z.of_nat 32 :: fromHex sp))
    with ("006a04" ++ TAG ++ "01" ++ byteHex ty ++ "04" ++
          toHex ((leBytes 4 g ++ 32 :: fromHex sp)%list))%string.
  rewrite toHex_app. cbn [toHex]. rewrite Hrt.
  change (byteHex 32) with "20". reflexivity.
Qed.

(** The tag of a script the builders wrote is found at its place, and what
    follows it is decoded. *)
Lemma decodeOutput_script (after : string) :
  78 <= len after ->
  decodeOutput (scriptOut ("006a04" ++ TAG ++ after))
  = Some match decodeFields after with
         | Some r => Found r
         | None => RangeError
         end.
Proof.
  intros H. unfold decodeOutput, scriptOut, hexOf. cbn [scriptPubKey hex].
  change (truthyStr (Some ("006a04" ++ TAG ++ after)%string)) with true.
  cbn [negb].
  replace (indexOf TAG ("006a04" ++ TAG ++ after)) with 6
    by (destruct after; reflexivity).
  cbn [Z.eqb]. change (6 + 8) with 14.
  change ("006a04" ++ TAG ++ after)%string with ("006a044f524731" ++ after)%string.
  rewrite (sliceFrom_skip "006a044f524731" after 14) by reflexivity.
  destruct (len after <? 2 + 2 + 8 + 2 + 64) eqn:E.
  - apply Z.ltb_lt in E. lia.
  - destruct (decodeFields after); reflexivity.
Qed.

(** Decoding what the builders encode. *)
Lemma decode_org1Script (g ty : Z) (sp pl : string) :
  0 <= g <= 4294967295 -> 0 <= ty <= 255 -> isTxid sp = true ->
  exists s, org1Script g ty sp = Some s /\
    decodeOutput (scriptOut (s ++ pl))
    = Some (Found {| type := Some ty; generation := g;
                     spawnTxid := sp; payload := pl |}).
Proof.
  intros Hg Hty Hsp. eexists. split; [apply org1Script_hex; assumption|].
  destruct (isTxid_spec sp Hsp) as (Hlen & _ & _).
  rewrite !append_assoc.
  change (("006a04" ++ TAG ++ "01" ++ byteHex ty ++ "04" ++
           toHex (leBytes 4 g) ++ "20" ++ sp ++ pl)%string)
    with ("006a04" ++ TAG ++ ("01" ++ byteHex ty ++ "04" ++
           toHex (leBytes 4 g) ++ "20" ++ sp ++ pl))%string.
  rewrite decodeOutput_script.
  - rewrite (decodeFields_fixed (Some ty) g); [reflexivity | | | | | ].
    + apply len_byteHex.
    + apply parseInt_byteHex. assumption.
    + rewrite len_toHex, length_leBytes. reflexivity.
    + rewrite fromHex_toHex by apply leBytes_isByte.
      apply readUInt32LE_leBytes. assumption.
    + assumption.
  - rewrite !len_append, len_toHex, length_leBytes, len_byteHex, Hlen.
    change (len "01") with 2. change (len "04") with 2. change (len "20") with 2.
    pose proof (len_nonneg pl). lia.
Qed.

End CodecFacts.

(** ** Decoding: which output is read, and what a short tag region gives *)

Section Decoding.

Lemma decodeOutputs_first (pre post : list Vout) (out : Vout) (d : Decoded) :
  Forall (fun o => decodeOutput o = None) pre ->
  decodeOutput out = Some d ->
  decodeOutputs (pre ++ out :: post) = d.
Proof.
  intros Hpre Hout. induction Hpre as [|o pre Ho _ IH]; simpl.
  - now rewrite Hout.
  - now rewrite Ho.
Qed.

Lemma indexOf_empty : indexOf TAG EmptyString = -1.
Proof. reflexivity. Qed.

Lemma decodeOutput_at_tag (out : Vout) (h : string) :
  hexOf out = Some h ->
  indexOf TAG h <> -1 ->
  78 <= len (sliceFrom h (Some (indexOf TAG h + 8))) ->
  decodeOutput out
  = Some match decodeFields (sliceFrom h (Some (indexOf TAG h + 8))) with
         | Some r => Found r
         | None => RangeError
         end.
Proof.
  intros Hh Hidx Hlen. unfold decodeOutput. rewrite Hh.
  destruct h as [|c h]; [now rewrite indexOf_empty in Hidx|].
  cbn [truthyStr negb].
  destruct (indexOf TAG (String c h) =? -1) eqn:E;
    [apply Z.eqb_eq in E; contradiction|].
  destruct (len _ <? 2 + 2 + 8 + 2 + 64) eqn:E2.
  - apply Z.ltb_lt in E2. lia.
  - destruct (decodeFields _); reflexivity.
Qed.

Lemma decodeOutput_short (out : Vout) :
  (forall h, hexOf out = Some h -> indexOf TAG h <> -1 ->
             len (sliceFrom h (Some (indexOf TAG h + 8))) < 78) ->
  decodeOutput out = None.
Proof.
  intros H. unfold decodeOutput.
  destruct (hexOf out) as [h|]; [|reflexivity].
  destruct (negb (truthyStr (Some h))); [reflexivity|].
  destruct (indexOf TAG h =? -1) eqn:E; [reflexivity|].
  apply Z.eqb_neq in E. specialize (H h eq_refl E).
  destruct (len _ <? 2 + 2 + 8 + 2 + 64) eqn:E2; [reflexivity|].
  apply Z.ltb_ge in E2. lia.
Qed.

End Decoding.

(** ** The covenant and the builders *)

Section Covenant.

Import Contract.

Lemma int2ByteString_nonneg (n : Z) (k : nat) :
  0 <= n < 2 ^ (8 * Z.of_nat k - 1) ->
  int2ByteString n (Z.of_nat k) = Some (toHex (leBytes k n)).
Proof.
  intros Hn. unfold int2ByteString. rewrite Nat2Z.id.
  destruct (n =? 0) eqn:E0.
  - apply Z.eqb_eq in E0. now subst.
  - rewrite Z.abs_eq by lia.
    destruct (n <? 2 ^ (8 * Z.of_nat k - 1)) eqn:E1;
      [|apply Z.ltb_ge in E1; lia].
    destruct (n <? 0) eqn:E2; [apply Z.ltb_lt in E2; lia|].
    now rewrite Z.add_0_r.
Qed.

(** The contract writes the script the builders write. *)
Lemma opReturnScript_org1Script (o : Organism) :
  0 <= organismType o <= 127 -> 0 <= generation o <= 2147483647 ->
  isTxid (spawnTxid o) = true ->
  opReturnScript o = org1Script (generation o) (organismType o) (spawnTxid o).
Proof.
  intros Hty Hg Hsp. unfold opReturnScript.
  change 1 with (Z.of_nat 1) at 1. change 4 with (Z.of_nat 4) at 1.
  rewrite !int2ByteString_nonneg by (simpl; lia).
  rewrite org1Script_hex by (assumption || lia).
  change (leBytes 1 (organismType o)) with [organismType o mod 256].
  rewrite Z.mod_small by lia. cbn [toHex]. rewrite append_nil_r.
  reflexivity.
Qed.

(** What [claim] of the contract and of claim.cjs produce, for a reward
    and a continuation that are amounts: the continuation when the next
    balance reaches the dust limit, then the annotation and the reward. *)
Lemma claim_general (o : Organism) (balance : Z) (pkh : ByteString) :
  encodable o -> isTxid (spawnTxid o) = true ->
  0 <= reward o ->
  let nextBalance := balance - reward o - fee o in
  (dustLimit o <= nextBalance -> 0 <= nextBalance) ->
  let o' := nextGeneration o in
  exists s,
    org1Script (generation o + 1) (organismType o) (spawnTxid o) = Some s /\
    let outs :=
      (if dustLimit o <=? nextBalance
       then [{| script := StateScript o'; satoshis := nextBalance |}]
       else []) ++
      [{| script := DataScript s; satoshis := 0 |};
       {| script := P2PKH pkh; satoshis := reward o |}] in
    claimOutputs o balance pkh = Some (o', outs) /\
    Claim.claim o balance None pkh = Claim.Broadcast outs /\
    decodeORG1 (txOf [scriptOut s])
    = Found {| Codec.type := Some (organismType o);
               Codec.generation := generation o + 1;
               Codec.spawnTxid := spawnTxid o; Codec.payload := EmptyString |}.
Proof.
  intros [Hty Hg] Hsp Hrw nextBalance Hnn o'.
  destruct (decode_org1Script (generation o + 1) (organismType o)
              (spawnTxid o) EmptyString ltac:(lia) ltac:(lia) Hsp) as (s & Hs & Hd).
  rewrite append_nil_r in Hd.
  exists s. split; [exact Hs|]. intros outs.
  assert (Hc : claimOutputs o balance pkh = Some (o', outs)).
  { unfold claimOutputs.
    rewrite (opReturnScript_org1Script (nextGeneration o));
      cbn [nextGeneration organismType generation spawnTxid]; try lia; try assumption.
    rewrite Hs. reflexivity. }
  split; [exact Hc|]. split.
  - unfold Claim.claim. cbn [truthyStr].
    change (hasMethod "claim") with true. cbv iota.
    assert (Hb : Claim.txBuilder o balance pkh = Some outs).
    { unfold Claim.txBuilder, Bsv.newOutput. rewrite Hs.
      replace (0 <=? reward o) with true by (symmetry; apply Z.leb_le; exact Hrw).
      unfold outs, o'. fold nextBalance.
      destruct (dustLimit o <=? nextBalance) eqn:Ea; [|reflexivity].
      apply Z.leb_le in Ea.
      replace (0 <=? nextBalance) with true
        by (symmetry; apply Z.leb_le; exact (Hnn Ea)).
      reflexivity. }
    rewrite Hb. unfold claim. cbn [utxoValue txOutputs]. rewrite Hc.
    destruct (list_eq_dec Output_eq_dec outs outs); [reflexivity|contradiction].
  - unfold decodeORG1, txOf. cbn [vout decodeOutputs]. now rewrite Hd.
Qed.

End Covenant.

(** ** Claims about the annotation codec *)

(** C3. Decode is a left inverse of Encode: for every well-formed record
    (species byte, four-byte generation, 32-byte lineage origin, payload
    pushes) the script exists and [decodeORG1] reads the record back from a
    transaction that carries it, payload included; outputs before it that
    the decoder skips, and any outputs after it, change nothing.  The
    script is the one the contract writes for a state with that species,
    generation and lineage origin, when the contract can write it. *)
Theorem decode_encode_roundtrip (r : ORG1) (pre post : list Vout) :
  valid r ->
  Forall (fun o => decodeOutput o = None) pre ->
  exists script,
    encode r = Some script /\
    decodeORG1 (txOf (pre ++ scriptOut script :: post)) = Found r /\
    forall o,
      type r = Some (Contract.organismType o) ->
      generation r = Contract.generation o ->
      spawnTxid r = Contract.spawnTxid o ->
      payload r = EmptyString ->
      Contract.organismType o <= 127 -> Contract.generation o <= 2147483647 ->
      Contract.opReturnScript o = Some script.
Proof.
  intros (ty & Hty & Hr & Hg & Hsp) Hpre.
  destruct r as [t g sp pl]. cbn [type generation spawnTxid payload] in *.
  subst t.
  destruct (decode_org1Script g ty sp pl Hg Hr Hsp) as (s & Hs & Hd).
  exists (s ++ pl)%string. split; [|split].
  - unfold encode. cbn [type generation spawnTxid payload]. now rewrite Hs.
  - unfold decodeORG1, txOf. cbn [vout].
    now apply decodeOutputs_first.
  - intros o Ho Hgo Hspo Hpl Hty' Hg'. subst pl g sp.
    injection Ho as ->. rewrite append_nil_r, <- Hs.
    apply opReturnScript_org1Script; [lia | lia | exact Hsp].
Qed.

Lemma decode_encode_roundtrip_witness :
  exists script,
    encode Examples.sampleRecord = Some script /\
    decodeORG1 (txOf ([scriptOut Examples.hexNoTag; scriptOut Examples.hexTruncated]
                      ++ scriptOut script :: [scriptOut Examples.hexNoTag]))
    = Found Examples.sampleRecord.
Proof.
  destruct (decode_encode_roundtrip Examples.sampleRecord
              [scriptOut Examples.hexNoTag; scriptOut Examples.hexTruncated]
              [scriptOut Examples.hexNoTag])
    as (script & He & Hd & _).
  - exists 200. repeat split; solve [reflexivity | vm_compute; discriminate].
  - repeat constructor.
  - exists script. now split.
Defined.

(** The payload comes back as it stands in the script: a payload push of
    the two bytes be ef is returned with its length byte. *)
Example payload_keeps_push_length :
  exists script,
    org1Script 258 200 Examples.zeroTxid = Some script /\
    decodeORG1 (txOf [scriptOut (script ++ toHex (Bsv.pushData [190; 239]))])
    = Found Examples.sampleRecord.
Proof. eexists. split; reflexivity. Qed.

(** C4, as stated, does not hold: a script cut right after the species
    push holds the tag, and [decodeORG1] answers null for it, the answer it
    gives when there is no tag at all. *)
Lemma truncated_is_not_found :
  indexOf TAG Examples.hexTruncated = 6 /\
  decodeORG1 (txOf [scriptOut Examples.hexTruncated]) = Null /\
  indexOf TAG Examples.hexNoTag = -1 /\
  decodeORG1 (txOf [scriptOut Examples.hexNoTag]) = Null.
Proof. repeat split; reflexivity. Qed.

(** C4, amended: when every tag in the transaction is followed by fewer
    than 78 hex digits, as in a script cut right after the species push,
    [decodeORG1] skips those outputs and answers null, the answer for an
    absent tag. *)
Theorem short_tag_region_is_null (tx : Tx) :
  (forall out h, In out (vout tx) -> hexOf out = Some h ->
                 indexOf TAG h <> -1 ->
                 len (sliceFrom h (Some (indexOf TAG h + 8))) < 78) ->
  decodeORG1 tx = Null.
Proof.
  unfold decodeORG1. induction (vout tx) as [|out outs IH]; intros H.
  - reflexivity.
  - simpl. rewrite decodeOutput_short.
    + apply IH. intros o h Hin. apply H. now right.
    + intros h. apply H. now left.
Qed.

Lemma short_tag_region_is_null_witness :
  decodeORG1 (txOf [scriptOut Examples.hexTruncated]) = Null.
Proof.
  apply short_tag_region_is_null.
  intros out h [<-|[]] Hh Hidx. injection Hh as <-.
  vm_compute. reflexivity.
Defined.

(** C10. The decoder takes the tag wherever its hex digits first occur in
    an output's script: the first output whose script holds them with at
    least 78 digits after decides the answer, whatever comes before the
    tag in that script and whatever outputs follow.  So a script that only
    happens to hold those digits, here at an odd position of the hex
    string and with no OP_FALSE OP_RETURN before, is decoded to a record,
    and an annotation in a later output is not looked at. *)
Theorem tag_accepted_anywhere (pre post : list Vout) (out : Vout) (h : string) :
  Forall (fun o => decodeOutput o = None) pre ->
  hexOf out = Some h ->
  indexOf TAG h <> -1 ->
  78 <= len (sliceFrom h (Some (indexOf TAG h + 8))) ->
  decodeORG1 (txOf (pre ++ out :: post))
  = match decodeFields (sliceFrom h (Some (indexOf TAG h + 8))) with
    | Some r => Found r
    | None => RangeError
    end
  /\ indexOf TAG Examples.hexIncidental = 1
  /\ decodeORG1 (txOf (scriptOut Examples.hexIncidental :: post))
     = Found Examples.incidentalRecord.
Proof.
  intros Hpre Hh Hidx Hlen. split; [|split].
  - unfold decodeORG1, txOf. cbn [vout].
    apply decodeOutputs_first; [exact Hpre|].
    now apply decodeOutput_at_tag.
  - reflexivity.
  - reflexivity.
Qed.

Lemma tag_accepted_anywhere_witness :
  decodeORG1 (txOf ([scriptOut Examples.hexNoTag] ++
                    scriptOut Examples.hexIncidental ::
                    [scriptOut Examples.hexAnnotated]))
  = Found Examples.incidentalRecord
  /\ indexOf TAG Examples.hexIncidental = 1
  /\ decodeORG1 (txOf [scriptOut Examples.hexIncidental;
                       scriptOut Examples.hexAnnotated])
     = Found Examples.incidentalRecord.
Proof.
  apply (tag_accepted_anywhere [scriptOut Examples.hexNoTag]
           [scriptOut Examples.hexAnnotated]
           (scriptOut Examples.hexIncidental) Examples.hexIncidental).
  - repeat constructor.
  - reflexivity.
  - vm_compute. discriminate.
  - vm_compute. discriminate.
Defined.

(** ** Claims about reproduction and feeding *)

Section Reproduce.

Import Contract.

(** A reproduction of an organism the contract can annotate (type at most
    127, generation + 1 below 2^31, a lineage origin of 32 bytes in
    lower-case hex), with a reward and a next balance that are not
    negative: when the next balance reaches the dust limit the first
    output is the continuation, with exactly the next balance and the
    generation plus one; below the dust limit there is no continuation.
    Either way the annotation follows, with the generation plus one and
    the type and lineage origin unchanged, and then the reward of exactly
    [reward] to the claimer; the contract and the builder of claim.cjs
    agree on these outputs. *)
Lemma reproduce_outputs (o : Organism) (balance : Z) (pkh : ByteString) :
  let nextBalance := balance - reward o - fee o in
  0 <= nextBalance -> 0 <= reward o ->
  encodable o -> isTxid (spawnTxid o) = true ->
  exists s,
    org1Script (generation o + 1) (organismType o) (spawnTxid o) = Some s /\
    decodeORG1 (txOf [scriptOut s])
    = Found {| Codec.type := Some (organismType o);
               Codec.generation := generation o + 1;
               Codec.spawnTxid := spawnTxid o; Codec.payload := EmptyString |} /\
    (dustLimit o <= nextBalance ->
       let outs :=
         [{| script := StateScript (nextGeneration o); satoshis := nextBalance |};
          {| script := DataScript s; satoshis := 0 |};
          {| script := P2PKH pkh; satoshis := reward o |}] in
       claimOutputs o balance pkh = Some (nextGeneration o, outs) /\
       Claim.claim o balance None pkh = Claim.Broadcast outs) /\
    (nextBalance < dustLimit o ->
       let outs :=
         [{| script := DataScript s; satoshis := 0 |};
          {| script := P2PKH pkh; satoshis := reward o |}] in
       claimOutputs o balance pkh = Some (nextGeneration o, outs) /\
       Claim.claim o balance None pkh = Claim.Broadcast outs).
Proof.
  intros nextBalance Hnext Hrw Henc Hsp.
  destruct (claim_general o balance pkh Henc Hsp Hrw (fun _ => Hnext))
    as (s & Hs & Hc & Hb & Hd).
  fold nextBalance in Hc, Hb.
  exists s. split; [exact Hs|]. split; [exact Hd|]. split.
  - intros Hdust. apply Z.leb_le in Hdust. rewrite Hdust in Hc, Hb. now split.
  - intros Hdust. apply Z.leb_gt in Hdust. rewrite Hdust in Hc, Hb. now split.
Qed.

(** C5, where the code parts from it: an organism of type 200, which
    [spawn.cjs --type 200] creates with 100000 satoshis, reward 1000, fee
    3000 and dust limit 546.  Its reproduction is legal, with a next
    balance of 96000, and the builder of claim.cjs assembles the
    continuation of 96000 at generation 1, the annotation and the reward of
    1000; but the contract cannot write the type byte
    ([int2ByteString(200, 1)] throws: 200 does not fit one byte in
    sign-magnitude), so that [claim] accepts no transaction at all and
    claim.cjs fails. *)
Theorem species_200_cannot_reproduce :
  (exists outs,
     Spawn.spawn Notions.argsType200 Examples.funder (Some Notions.spawnUtxos)
     = Spawn.Assembled Notions.organism200
         ({| script := StateScript Notions.organism200; satoshis := 100000 |}
          :: outs)) /\
  100000 - reward Notions.organism200 - fee Notions.organism200 = 96000 /\
  (exists s,
     Claim.txBuilder Notions.organism200 100000 Examples.claimer
     = Some [{| script := StateScript (nextGeneration Notions.organism200);
                satoshis := 96000 |};
             {| script := DataScript s; satoshis := 0 |};
             {| script := P2PKH Examples.claimer; satoshis := 1000 |}]) /\
  int2ByteString (organismType Notions.organism200) 1 = None /\
  claimOutputs Notions.organism200 100000 Examples.claimer = None /\
  (forall ctx pkh, claim Notions.organism200 ctx pkh = None) /\
  Claim.claim Notions.organism200 100000 None Examples.claimer = Claim.Failed.
Proof.
  split; [eexists; reflexivity|]. split; [reflexivity|].
  split; [eexists; reflexivity|]. split; [reflexivity|].
  split; [reflexivity|]. split; [|reflexivity].
  intros ctx pkh. reflexivity.
Qed.

(** C2, as stated, does not hold: with balance 2000, reward 1000 and fee
    3000 the next balance is -2000, and the reproduction is not refused:
    the contract accepts, and claim.cjs broadcasts, the annotation and the
    reward of 1000. *)
Lemma negative_balance_is_not_rejected :
  2000 - reward Examples.organismA - fee Examples.organismA < 0 /\
  exists s,
    claimOutputs Examples.organismA 2000 Examples.claimer
    = Some (nextGeneration Examples.organismA,
            [{| script := DataScript s; satoshis := 0 |};
             {| script := P2PKH Examples.claimer; satoshis := 1000 |}]) /\
    Claim.claim Examples.organismA 2000 None Examples.claimer
    = Claim.Broadcast
        [{| script := DataScript s; satoshis := 0 |};
         {| script := P2PKH Examples.claimer; satoshis := 1000 |}].
Proof.
  split; [reflexivity|]. eexists. split; reflexivity.
Qed.

(** C2, amended: a negative next balance is not an error of its own.  For
    an organism the contract can annotate (type from 0 to 127, generation
    + 1 from 0 to 2^31 - 1), with a lineage origin of 32 bytes in
    lower-case hex and a reward and a dust limit that are not negative, a
    negative next balance is the death path: no continuation, and the annotation (generation
    plus one) and the reward of exactly [reward] are still produced, by
    the contract and by claim.cjs alike. *)
Theorem negative_balance_takes_death_path
    (o : Organism) (balance : Z) (pkh : ByteString) :
  balance - reward o - fee o < 0 ->
  0 <= dustLimit o -> 0 <= reward o ->
  encodable o -> isTxid (spawnTxid o) = true ->
  exists s,
    org1Script (generation o + 1) (organismType o) (spawnTxid o) = Some s /\
    let outs :=
      [{| script := DataScript s; satoshis := 0 |};
       {| script := P2PKH pkh; satoshis := reward o |}] in
    claimOutputs o balance pkh = Some (nextGeneration o, outs) /\
    Claim.claim o balance None pkh = Claim.Broadcast outs.
Proof.
  intros Hneg Hdust Hrw Henc Hsp.
  destruct (claim_general o balance pkh Henc Hsp Hrw ltac:(lia))
    as (s & Hs & Hc & Hb & _).
  assert (E : (dustLimit o <=? balance - reward o - fee o) = false)
    by (apply Z.leb_gt; lia).
  rewrite E in Hc, Hb.
  exists s. split; [exact Hs|]. split; assumption.
Qed.

Lemma negative_balance_takes_death_path_witness :
  exists s,
    Claim.claim Examples.organismA 2000 None Examples.claimer
    = Claim.Broadcast
        [{| script := DataScript s; satoshis := 0 |};
         {| script := P2PKH Examples.claimer; satoshis := 1000 |}].
Proof.
  destruct (negative_balance_takes_death_path
              Examples.organismA 2000 Examples.claimer)
    as (s & _ & _ & H).
  - reflexivity.
  - vm_compute. discriminate.
  - vm_compute. discriminate.
  - split; vm_compute; split; discriminate.
  - reflexivity.
  - exists s. exact H.
Defined.

End Reproduce.

Section Feed.

Import Contract.


(** C7, what fund.cjs does with a legal feed: it builds nothing.  The
    script binds its builder to a public method [fund] of the contract and
    calls it, and the contract has no such method.  So no run of [fund()]
    hands over a transaction, whatever the arguments, the organism and the
    funder's outputs; the feed of 20000 to a balance of 50000, by a funder
    who holds 30000, passes every check of the script and ends in the
    exception. *)
Theorem feed_builds_nothing :
  hasMethod "fund" = false /\
  (forall args o balance spentInfo funder utxos outs,
     Fund.fund args o balance spentInfo funder utxos <> Fund.Built outs) /\
  Fund.usage Examples.argsFeed = false /\
  jlt (Some (Fund.sumValues Examples.funderUtxos))
      (jadd (Fund.AMOUNT Examples.argsFeed) (Fund.FEE Examples.argsFeed)) = false /\
  Fund.fund Examples.argsFeed Examples.organismA 50000 None Examples.funder
    (Some Examples.funderUtxos) = Fund.Failed.
Proof.
  split; [reflexivity|]. split; [|repeat split; reflexivity].
  intros args o balance spentInfo funder utxos outs. unfold Fund.fund.
  destruct (Fund.usage args); [discriminate|].
  destruct (truthyStr spentInfo); [discriminate|].
  destruct utxos as [[|u us]|]; try discriminate.
  destruct (jlt _ _); [discriminate|].
  change (hasMethod "fund") with false. discriminate.
Qed.

End Feed.

(** ** The walk of [traceLineage] *)

Section Walk.

Import Walker.

Variable L : Ledger.

(** What one turn of the loop does to its variables. *)
Lemma turn_inv (s s' : State) :
  turn L s s' ->
  exists e,
    lineage s' = lineage s ++ [e] /\
    fetched s' = fetched s ++ [txid e] /\
    currentTxid s = Some (txid e) /\
    generation e = gen s /\
    (gen s = 0 -> fee e = 0 /\ reward e = 0) /\
    (forall p, 0 < gen s -> at_index (lineage s) (gen s - 1) = Some p ->
               fee e = balance p - balance e - reward e) /\
    ((alive e = false /\ truthyStr (spentBy e) = true /\
      currentTxid s' = spentBy e /\ gen s' = gen s + 1) \/
     (alive e = true /\ spentBy e = None /\
      currentTxid s' = None /\ gen s' = gen s)).
Proof.
  intros (cur & Hcur & _ & Hbody). unfold body in Hbody.
  destruct (getTx L cur) as [tx|]; [|discriminate].
  destruct (vout tx) as [|organismOutput outs] eqn:Hv; [discriminate|].
  set (org1 := match decodeORG1 tx with Found r => Some r | _ => None end) in *.
  set (entry := makeEntry (lineage s) (gen s) cur tx organismOutput org1) in *.
  assert (Hfee0 : gen s = 0 -> fee entry = 0 /\ reward entry = 0).
  { intros H0. unfold entry, makeEntry. cbn [fee reward]. rewrite H0.
    split; reflexivity. }
  assert (Hfee1 : forall p, 0 < gen s ->
            at_index (lineage s) (gen s - 1) = Some p ->
            fee entry = balance p - balance entry - reward entry).
  { intros p Hpos Hp. unfold entry, makeEntry. cbn [fee reward balance].
    replace (0 <? gen s) with true by (symmetry; apply Z.ltb_lt; lia).
    rewrite Hp. reflexivity. }
  assert (Hnext :
    (if truthyStr (getSpent L cur)
     then Next {| lineage := lineage s ++
                    [{| generation := generation entry; txid := txid entry;
                        balance := balance entry; claimer := claimer entry;
                        reward := reward entry; fee := fee entry;
                        blockHeight := blockHeight entry;
                        blockTime := blockTime entry;
                        alive := false; org1 := Walker.org1 entry;
                        spentBy := getSpent L cur |}];
                  currentTxid := getSpent L cur; gen := gen s + 1;
                  fetched := fetched s ++ [cur] |}
     else Next {| lineage := lineage s ++ [entry]; currentTxid := None;
                  gen := gen s; fetched := fetched s ++ [cur] |}) = Next s').
  { destruct (decodeORG1 tx); try discriminate; exact Hbody. }
  clear Hbody.
  destruct (truthyStr (getSpent L cur)) eqn:Hsp; injection Hnext as <-.
  - eexists. cbn [lineage fetched currentTxid gen].
    split; [reflexivity|]. cbn [txid generation fee reward balance alive spentBy].
    split; [reflexivity|]. split; [exact Hcur|]. split; [reflexivity|].
    split; [exact Hfee0|]. split; [exact Hfee1|].
    left. repeat split. exact Hsp.
  - exists entry. cbn [lineage fetched currentTxid gen].
    split; [reflexivity|]. split; [reflexivity|]. split; [exact Hcur|].
    split; [reflexivity|]. split; [exact Hfee0|]. split; [exact Hfee1|].
    right. repeat split.
Qed.

(** The entries a walk has appended, and how they are linked. *)
Lemma walk_inv (s0 s : State) :
  reaches L s0 s ->
  exists app,
    lineage s = lineage s0 ++ app /\
    fetched s = fetched s0 ++ map txid app /\
    chain (currentTxid s0) (gen s0) app (currentTxid s) (gen s).
Proof.
  induction 1 as [|s1 s2 _ (app & Hl & Hf & Hc) Hturn].
  - exists []. rewrite !app_nil_r. repeat split. constructor.
  - destruct (turn_inv s1 s2 Hturn) as (e & Hl2 & Hf2 & Hcur & Hg & _ & _ & Hend).
    exists (app ++ [e]). split; [|split].
    + rewrite Hl2, Hl. now rewrite app_assoc.
    + rewrite Hf2, Hf, map_app. now rewrite app_assoc.
    + apply chain_snoc with (cur1 := currentTxid s1) (g1 := gen s1); assumption.
Qed.


Lemma loop_saved (fuel : nat) (s0 sf : State) :
  loop fuel L s0 = Some (Saved sf) ->
  exists s, reaches L s0 s /\ lineage sf = lineage s /\
            (fetched sf = fetched s \/
             exists id, currentTxid s = Some id /\ getTx L id = None /\
                        fetched sf = fetched s ++ [id]).
Proof.
  revert s0. induction fuel as [|fuel IH]; intros s0 H; [discriminate|].
  cbn [loop] in H.
  destruct (currentTxid s0) as [cur|] eqn:Hcur.
  - destruct (truthyStr (Some cur)) eqn:Ht.
    + destruct (body L s0 cur) as [s1|s1|] eqn:Hb.
      * destruct (IH s1 H) as (s & Hr & Hl & Hf).
        exists s. split; [|split; assumption].
        clear - Hr Hcur Ht Hb.
        induction Hr as [|sa sb _ IHr Hturn].
        -- apply reaches_turn with (s1 := s0); [constructor|].
           exists cur. repeat split; assumption.
        -- apply reaches_turn with (s1 := sa); assumption.
      * injection H as <-. exists s0. split; [constructor|].
        unfold body in Hb. destruct (getTx L cur) as [tx|] eqn:Hg.
        -- destruct (vout tx); [discriminate|].
           destruct (decodeORG1 tx); try discriminate;
             destruct (truthyStr (getSpent L cur)); discriminate.
        -- injection Hb as <-. cbn [lineage fetched]. split; [reflexivity|].
           right. exists cur. repeat split; assumption.
      * discriminate.
    + injection H as <-. exists s0. repeat split; [constructor | now left].
  - injection H as <-. exists s0. repeat split; [constructor | now left].
Qed.

(** The entry that one run of the body appends, read off the ledger. *)
Lemma body_next_inv (s s1 : State) (cur : string) :
  body L s cur = Next s1 ->
  exists tx out e,
    getTx L cur = Some tx /\ hd_error (vout tx) = Some out /\
    lineage s1 = lineage s ++ [e] /\ fetched s1 = fetched s ++ [cur] /\
    txid e = cur /\ generation e = gen s /\
    balance e = toSats (value out) /\
    spentBy e = (if truthyStr (getSpent L cur) then getSpent L cur else None) /\
    alive e = negb (truthyStr (getSpent L cur)).
Proof.
  unfold body. intros Hb.
  destruct (getTx L cur) as [tx|]; [|discriminate].
  destruct (vout tx) as [|out outs] eqn:Hv; [discriminate|].
  exists tx, out.
  destruct (decodeORG1 tx); try discriminate;
    destruct (truthyStr (getSpent L cur)); injection Hb as <-;
    eexists; rewrite Hv; cbn [lineage fetched hd_error];
    (split; [reflexivity|]); (split; [reflexivity|]); (split; [reflexivity|]);
    (split; [reflexivity|]); repeat split.
Qed.

(** A loop that starts at a transaction, with nothing fetched yet: that
    transaction is the first one fetched.  When the ledger does not produce
    it nothing is appended; when it does, the first entry appended is its
    entry, and the transactions fetched are those of the entries appended,
    and at most one more, which could not be fetched. *)
Lemma loop_start (fuel : nat) (s0 sf : State) (cur : string) :
  currentTxid s0 = Some cur -> truthyStr (Some cur) = true ->
  fetched s0 = [] ->
  loop fuel L s0 = Some (Saved sf) ->
  exists app,
    lineage sf = lineage s0 ++ app /\
    hd_error (fetched sf) = Some cur /\
    (fetched sf = map txid app \/
     exists id, getTx L id = None /\ fetched sf = map txid app ++ [id]) /\
    match getTx L cur with
    | None => app = []
    | Some tx =>
        exists out e rest,
          hd_error (vout tx) = Some out /\ app = e :: rest /\
          txid e = cur /\ generation e = gen s0 /\
          balance e = toSats (value out) /\
          spentBy e = (if truthyStr (getSpent L cur) then getSpent L cur
                       else None) /\
          alive e = negb (truthyStr (getSpent L cur))
    end.
Proof.
  intros Hcur Ht Hf0 H. destruct fuel as [|fuel]; [discriminate|].
  cbn [loop] in H. rewrite Hcur, Ht in H.
  destruct (body L s0 cur) as [s1|s1|] eqn:Hb; [| |discriminate].
  - destruct (body_next_inv s0 s1 cur Hb)
      as (tx & out & e & Hg & Hv & Hl1 & Hf1 & Htx & Hgen & Hbal & Hsp & Hal).
    destruct (loop_saved fuel s1 sf H) as (s & Hr & Hl & Hf).
    destruct (walk_inv s1 s Hr) as (app & Hl' & Hf' & _).
    assert (Hfs : fetched s = map txid (e :: app)).
    { rewrite Hf', Hf1, Hf0. cbn [List.app map]. now rewrite Htx. }
    exists (e :: app). split; [|split; [|split]].
    + rewrite Hl, Hl', Hl1, <- app_assoc. reflexivity.
    + destruct Hf as [->|(id & _ & _ & ->)]; rewrite Hfs; cbn [map List.app hd_error];
        now rewrite Htx.
    + destruct Hf as [->|(id & _ & Hid & ->)]; [left; exact Hfs|].
      right. exists id. split; [exact Hid|]. now rewrite Hfs.
    + rewrite Hg. exists out, e, app. repeat split; assumption.
  - injection H as <-. unfold body in Hb.
    destruct (getTx L cur) as [tx|] eqn:Hg.
    + destruct (vout tx); [discriminate|].
      destruct (decodeORG1 tx); try discriminate;
        destruct (truthyStr (getSpent L cur)); discriminate.
    + injection Hb as <-. cbn [lineage fetched]. exists []. rewrite Hf0.
      split; [now rewrite app_nil_r|]. split; [reflexivity|].
      split; [|reflexivity].
      right. exists cur. split; [exact Hg | reflexivity].
Qed.

End Walk.

(** ** Facts about chains *)

Section Chains.

Import Walker.

Lemma chain_alive cur g app cur' g' i e :
  chain cur g app cur' g' ->
  nth_error app i = Some e -> alive e = true ->
  S i = List.length app /\ cur' = None.
Proof.
  intros Hc. revert i e.
  induction Hc as [|cur g app cur1 g1 e0 cur2 g2 Hc IH Hcur Hg Hend];
    intros i e Hn Ha.
  - destruct i; discriminate.
  - rewrite length_app. cbn [List.length].
    destruct (Nat.lt_ge_cases i (List.length app)) as [Hlt|Hge].
    + rewrite nth_error_app1 in Hn by assumption.
      destruct (IH i e Hn Ha) as [_ Hnone]. congruence.
    + rewrite nth_error_app2 in Hn by assumption.
      destruct (i - List.length app)%nat as [|k] eqn:Ek.
      * injection Hn as <-. split; [lia|].
        destruct Hend as [(Hf & _)|(_ & _ & Hn2 & _)]; congruence.
      * destruct k; discriminate.
Qed.

Lemma chain_spent cur g app cur' g' i e :
  chain cur g app cur' g' ->
  nth_error app i = Some e -> alive e = false ->
  truthyStr (spentBy e) = true /\
  (forall e', nth_error app (S i) = Some e' -> spentBy e = Some (txid e')) /\
  (S i = List.length app -> cur' = spentBy e).
Proof.
  intros Hc. revert i e.
  induction Hc as [|cur g app cur1 g1 e0 cur2 g2 Hc IH Hcur Hg Hend];
    intros i e Hn Ha.
  - destruct i; discriminate.
  - rewrite length_app. cbn [List.length].
    destruct (Nat.lt_ge_cases i (List.length app)) as [Hlt|Hge].
    + rewrite nth_error_app1 in Hn by assumption.
      destruct (IH i e Hn Ha) as (Ht & Hnext & Hlast).
      split; [exact Ht|]. split; [|lia].
      intros e' Hn'.
      destruct (Nat.lt_ge_cases (S i) (List.length app)) as [Hlt'|Hge'].
      * rewrite nth_error_app1 in Hn' by assumption. now apply Hnext.
      * rewrite nth_error_app2 in Hn' by assumption.
        replace (S i - List.length app)%nat with 0%nat in Hn' by lia.
        injection Hn' as <-. rewrite <- Hlast by lia. exact Hcur.
    + rewrite nth_error_app2 in Hn by assumption.
      destruct (i - List.length app)%nat as [|k] eqn:Ek.
      * injection Hn as <-.
        destruct Hend as [(_ & Ht & Hc2 & _)|(Hf & _)]; [|congruence].
        split; [exact Ht|]. split; [|intros _; exact Hc2].
        intros e' Hn'. rewrite nth_error_app2 in Hn' by lia.
        replace (S i - List.length app)%nat with 1%nat in Hn' by lia.
        discriminate.
      * destruct k; discriminate.
Qed.

Lemma chain_entry cur g app cur' g' e :
  chain cur g app cur' g' -> In e app ->
  (alive e = false /\ truthyStr (spentBy e) = true) \/
  (alive e = true /\ spentBy e = None).
Proof.
  induction 1 as [|cur g app cur1 g1 e0 cur2 g2 Hc IH Hcur Hg Hend]; intros Hin.
  - destruct Hin.
  - apply in_app_or in Hin. destruct Hin as [Hin|[<-|[]]]; [now apply IH|].
    destruct Hend as [(Ha & Ht & _)|(Ha & Hs & _)]; [left | right]; now split.
Qed.

Lemma chain_gen cur g app cur' g' :
  chain cur g app cur' g' ->
  (cur' <> None -> g' = g + Z.of_nat (List.length app)) /\
  (forall i e, nth_error app i = Some e -> generation e = g + Z.of_nat i).
Proof.
  induction 1 as [|cur g app cur1 g1 e0 cur2 g2 Hc [IHg IHn] Hcur Hg Hend].
  - split; [intros _; cbn; lia|]. intros [|i] e H; discriminate.
  - assert (Hg1 : g1 = g + Z.of_nat (List.length app))
      by (apply IHg; congruence).
    split.
    + intros Hne. rewrite length_app. cbn [List.length].
      destruct Hend as [(_ & _ & _ & ->)|(_ & _ & Hn & _)]; [lia|contradiction].
    + intros i e Hn.
      destruct (Nat.lt_ge_cases i (List.length app)) as [Hlt|Hge].
      * rewrite nth_error_app1 in Hn by assumption. now apply IHn.
      * rewrite nth_error_app2 in Hn by assumption.
        destruct (i - List.length app)%nat as [|k] eqn:Ek.
        -- injection Hn as <-. lia.
        -- destruct k; discriminate.
Qed.

Lemma chain_nil_inv cur g cur' g' :
  chain cur g [] cur' g' -> cur' = cur /\ g' = g.
Proof.
  intros H. remember [] as l eqn:El.
  destruct H as [|cur g app cur1 g1 e0 cur2 g2 Hc Hcur Hg Hend].
  - now split.
  - destruct app; discriminate.
Qed.

Lemma chain_first cur g app cur' g' e :
  chain cur g app cur' g' -> hd_error app = Some e ->
  cur = Some (txid e) /\ generation e = g.
Proof.
  induction 1 as [|cur g app cur1 g1 e0 cur2 g2 Hc IH Hcur Hg Hend]; intros Hh.
  - discriminate.
  - destruct app as [|a app].
    + cbn in Hh. injection Hh as <-.
      destruct (chain_nil_inv _ _ _ _ Hc) as [-> ->]. now split.
    + cbn in Hh. apply IH. exact Hh.
Qed.

End Chains.

(** ** Resuming, and what a walk keeps true *)

Section Resume.

Import Walker.

Lemma resume_snoc (init : list Entry) (last : Entry) (spawnTxid : string) :
  resume (Some (init ++ [last])) spawnTxid
  = if truthyStr (spentBy last) then
      {| lineage := init ++ [last]; currentTxid := spentBy last;
         gen := generation last + 1; fetched := [] |}
    else if alive last then
      {| lineage := init; currentTxid := Some (txid last);
         gen := generation last; fetched := [] |}
    else fresh spawnTxid.
Proof.
  destruct init as [|x init].
  - reflexivity.
  - cbn [List.app resume].
    rewrite last_last.
    change (x :: init ++ [last]) with ((x :: init) ++ [last]).
    rewrite removelast_last. reflexivity.
Qed.

Lemma walkerTrace_prefix (a b : list Entry) :
  walkerTrace (a ++ b) -> walkerTrace a.
Proof.
  intros [H1 H2]. split.
  - intros i e Hn. apply H1. rewrite nth_error_app1; [exact Hn|].
    apply nth_error_Some. congruence.
  - intros e Hin. apply H2. apply in_or_app. now left.
Qed.

Lemma walkerTrace_nil : walkerTrace [].
Proof. split; [intros [|i] e H; discriminate | intros e []]. Qed.

(** The loop starts with its generation counter at the length of the
    lineage it keeps, and the lineage it keeps is one of the walker's. *)
Lemma resume_start (existing : option (list Entry)) (spawnTxid : string) :
  cacheOk existing ->
  let s0 := resume existing spawnTxid in
  gen s0 = Z.of_nat (List.length (lineage s0)) /\
  fetched s0 = [] /\ walkerTrace (lineage s0).
Proof.
  intros Hok.
  assert (Hfresh : gen (fresh spawnTxid)
                   = Z.of_nat (List.length (lineage (fresh spawnTxid))) /\
                   fetched (fresh spawnTxid) = [] /\
                   walkerTrace (lineage (fresh spawnTxid)))
    by (repeat split; [intros [|i] e H; discriminate | intros e []]).
  destruct existing as [l|]; [|exact Hfresh].
  simpl in Hok.
  induction l as [|last init _] using rev_ind; [exact Hfresh|].
  cbv zeta. rewrite resume_snoc.
  destruct Hok as [Hgen Halive].
  assert (Hlast : generation last = Z.of_nat (List.length init)).
  { apply Hgen. rewrite nth_error_app2 by lia.
    now rewrite Nat.sub_diag. }
  destruct (truthyStr (spentBy last)) eqn:Ht.
  - cbn [gen lineage fetched]. rewrite length_app. cbn [List.length].
    repeat split; [lia | exact Hgen | exact Halive].
  - rewrite (Halive last) by (try apply in_or_app; try right; try (now left); exact Ht).
    cbn [gen lineage fetched]. split; [exact Hlast|]. split; [reflexivity|].
    apply (walkerTrace_prefix init [last]). now split.
Qed.

Variable L : Ledger.

(** A walk that starts from a lineage of the walker, with its generation
    counter at the length of that lineage, holds one at every turn. *)
Lemma walk_walkerTrace (s0 s : State) :
  walkerTrace (lineage s0) ->
  gen s0 = Z.of_nat (List.length (lineage s0)) ->
  reaches L s0 s -> walkerTrace (lineage s).
Proof.
  intros [H1 H2] Hg Hr.
  destruct (walk_inv L s0 s Hr) as (app & Hl & _ & Hc).
  rewrite Hl. split.
  - intros i e Hn.
    destruct (Nat.lt_ge_cases i (List.length (lineage s0))) as [Hlt|Hge].
    + rewrite nth_error_app1 in Hn by assumption. now apply H1.
    + rewrite nth_error_app2 in Hn by assumption.
      destruct (chain_gen _ _ _ _ _ Hc) as [_ Hgen].
      rewrite (Hgen _ _ Hn), Hg. lia.
  - intros e Hin Ht. apply in_app_or in Hin. destruct Hin as [Hin|Hin].
    + now apply H2.
    + destruct (chain_entry _ _ _ _ _ e Hc Hin) as [(_ & Ht')|(Ha & _)];
        congruence.
Qed.

(** The fee and reward of every entry a walk appends. *)
Lemma walk_fees (s0 s : State) :
  gen s0 = Z.of_nat (List.length (lineage s0)) ->
  reaches L s0 s ->
  (currentTxid s <> None -> gen s = Z.of_nat (List.length (lineage s))) /\
  (forall i e, (List.length (lineage s0) <= i)%nat ->
               nth_error (lineage s) i = Some e -> feeFacts (lineage s) i e).
Proof.
  intros Hg0. induction 1 as [|s1 s2 Hr [IHg IHf] Hturn].
  - split; [intros _; exact Hg0|].
    intros i e Hle Hn.
    assert (i < List.length (lineage s0))%nat
      by (apply nth_error_Some; congruence).
    lia.
  - destruct (turn_inv L s1 s2 Hturn)
      as (e0 & Hl & _ & Hcur & Hgen & Hf0 & Hf1 & Hend).
    assert (Hg1 : gen s1 = Z.of_nat (List.length (lineage s1)))
      by (apply IHg; congruence).
    assert (Hlen : (List.length (lineage s0) <= List.length (lineage s1))%nat).
    { destruct (walk_inv L s0 s1 Hr) as (app & -> & _). rewrite length_app. lia. }
    split.
    + intros Hne. rewrite Hl, length_app. cbn [List.length].
      destruct Hend as [(_ & _ & _ & ->)|(_ & _ & Hn & _)]; [lia|contradiction].
    + intros i e Hle Hn. rewrite Hl in Hn |- *.
      destruct (Nat.lt_ge_cases i (List.length (lineage s1))) as [Hlt|Hge].
      * rewrite nth_error_app1 in Hn by assumption.
        destruct (IHf i e Hle Hn) as [F0 F1]. split; [exact F0|].
        intros p Hpos Hp. rewrite nth_error_app1 in Hp by lia. now apply F1.
      * rewrite nth_error_app2 in Hn by assumption.
        destruct (i - List.length (lineage s1))%nat as [|k] eqn:Ek;
          [|destruct k; discriminate].
        injection Hn as <-.
        assert (i = List.length (lineage s1)) by lia. subst i.
        split.
        -- intros H0. apply Hf0. lia.
        -- intros p Hpos Hp. rewrite nth_error_app1 in Hp by lia.
           apply Hf1; [lia|]. unfold at_index.
           destruct (gen s1 - 1 <? 0) eqn:E; [apply Z.ltb_lt in E; lia|].
           replace (Z.to_nat (gen s1 - 1))
             with (List.length (lineage s1) - 1)%nat by lia.
           exact Hp.
Qed.

(** The lineage [traceLineage] writes to the cache file is one of the
    walker's, so that the next run starts from one again. *)
Lemma traceLineage_writes_walkerTrace (fuel : nat)
    (existing : option (list Entry)) (spawnTxid : string) (sf : State) :
  cacheOk existing ->
  traceLineage fuel L existing spawnTxid = Some (Saved sf) ->
  walkerTrace (lineage sf).
Proof.
  intros Hok H. destruct (loop_saved L fuel _ sf H) as (s & Hr & -> & _).
  destruct (resume_start existing spawnTxid Hok) as (Hg & _ & Hwt).
  exact (walk_walkerTrace _ s Hwt Hg Hr).
Qed.

End Resume.

(** ** Claims about the lineage walker *)

Section WalkerClaims.

Import Walker.

(** The walk over the two transactions of [Examples.ledger2], turn by
    turn. *)
Lemma ledger2_walk :
  reaches Examples.ledger2 (resume None Examples.idSpawn) Examples.walk2.
Proof.
  apply reaches_turn with (s1 := Examples.walk1).
  - apply reaches_turn with (s1 := resume None Examples.idSpawn).
    + apply reaches_refl.
    + exists Examples.idSpawn. repeat split; reflexivity.
  - exists Examples.idGen1. repeat split; reflexivity.
Qed.

Lemma ledger2_rewalk :
  reaches Examples.ledger2
    (resume (Some [Examples.entry0; Examples.entry1]) Examples.idSpawn)
    Examples.rewalk.
Proof.
  apply reaches_turn
    with (s1 := resume (Some [Examples.entry0; Examples.entry1]) Examples.idSpawn).
  - apply reaches_refl.
  - exists Examples.idGen1. repeat split; reflexivity.
Qed.

Lemma ledger2_trace : walkerTrace [Examples.entry0; Examples.entry1].
Proof.
  split.
  - intros [|[|[|i]]] e H; try discriminate H; injection H as <-; reflexivity.
  - intros e [<-|[<-|[]]] H; [discriminate H | reflexivity].
Qed.




(** C8. Every entry a walk appends records its generation as its place in
    the lineage; where there is an entry before it, its fee is that
    entry's balance minus its own balance minus its own reward; the entry
    with none before it, of generation 0, has fee 0 and reward 0.  The
    cached lineage the walk starts from is one the walker wrote. *)
Theorem fee_from_prior_balance (L : Ledger) (existing : option (list Entry))
    (spawnTxid : string) (s : State) (i : nat) (e : Entry) :
  cacheOk existing ->
  reaches L (resume existing spawnTxid) s ->
  (List.length (lineage (resume existing spawnTxid)) <= i)%nat ->
  nth_error (lineage s) i = Some e ->
  generation e = Z.of_nat i /\
  (i = 0%nat -> fee e = 0 /\ reward e = 0) /\
  (forall p, (0 < i)%nat -> nth_error (lineage s) (i - 1) = Some p ->
             fee e = balance p - balance e - reward e).
Proof.
  intros Hok Hr Hle Hn.
  destruct (resume_start existing spawnTxid Hok) as (Hg & _ & Hwt).
  split.
  - destruct (walk_walkerTrace L _ s Hwt Hg Hr) as [Hgen _]. now apply Hgen.
  - destruct (walk_fees L _ s Hg Hr) as [_ Hf]. exact (Hf i e Hle Hn).
Qed.

Lemma fee_from_prior_balance_witness :
  generation Examples.entry1 = 1 /\
  (1%nat = 0%nat -> fee Examples.entry1 = 0 /\ reward Examples.entry1 = 0) /\
  (forall p, (0 < 1)%nat ->
             nth_error (lineage Examples.walk2) (1 - 1) = Some p ->
             fee Examples.entry1
             = balance p - balance Examples.entry1 - reward Examples.entry1).
Proof.
  apply (fee_from_prior_balance Examples.ledger2 None Examples.idSpawn
           Examples.walk2 1 Examples.entry1).
  - exact I.
  - exact ledger2_walk.
  - simpl. lia.
  - reflexivity.
Defined.

(** C9, as stated, does not hold: the two entries the walker wrote for
    [Examples.ledger2] end in an entry without a known spender; on a ledger
    that does not produce the transaction of that entry, the entry is
    discarded and not re-derived: the lineage written is the first entry
    alone. *)
Lemma lost_tip_is_not_rederived :
  walkerTrace [Examples.entry0; Examples.entry1] /\
  spentBy Examples.entry1 = None /\
  getTx Notions.ledgerCut (txid Examples.entry1) = None /\
  traceLineage 2 Notions.ledgerCut (Some [Examples.entry0; Examples.entry1])
    Examples.idSpawn
  = Some (Saved {| lineage := [Examples.entry0];
                   currentTxid := Some Examples.idGen1;
                   gen := 1; fetched := [Examples.idGen1] |}).
Proof.
  split; [exact ledger2_trace|]. repeat split; reflexivity.
Qed.

(** C9, amended: a run of [traceLineage] from a non-empty cached lineage
    the walker wrote.  When its last entry records a spender, every cached
    entry is kept, the first transaction fetched is that spender, and the
    transactions fetched are those of the entries appended (and at most
    one more, which could not be fetched and ended the walk).  When it
    records none, the last entry is discarded and its transaction is the
    first one fetched: if the ledger produces it, the entry derived from
    it (the same transaction and generation, the balance and the spender
    as the ledger has them now) takes the place of the discarded one
    before the walk goes on; if the ledger does not, the walk ends there
    and the lineage is written without that entry. *)
Theorem resume_from_cache (L : Ledger) (fuel : nat) (init : list Entry)
    (last : Entry) (spawnTxid : string) (sf : State) :
  walkerTrace (init ++ [last]) ->
  truthyStr (Some (txid last)) = true ->
  traceLineage fuel L (Some (init ++ [last])) spawnTxid = Some (Saved sf) ->
  (truthyStr (spentBy last) = true ->
     exists app,
       lineage sf = (init ++ [last]) ++ app /\
       hd_error (fetched sf) = spentBy last /\
       (fetched sf = map txid app \/
        exists id, getTx L id = None /\ fetched sf = map txid app ++ [id]) /\
       forall e, hd_error app = Some e ->
                 spentBy last = Some (txid e) /\
                 generation e = generation last + 1) /\
  (truthyStr (spentBy last) = false ->
     hd_error (fetched sf) = Some (txid last) /\
     match getTx L (txid last) with
     | None => lineage sf = init /\ fetched sf = [txid last]
     | Some tx =>
         exists out e rest,
           hd_error (vout tx) = Some out /\
           lineage sf = init ++ e :: rest /\
           txid e = txid last /\ generation e = generation last /\
           balance e = toSats (value out) /\
           spentBy e = (if truthyStr (getSpent L (txid last))
                        then getSpent L (txid last) else None) /\
           alive e = negb (truthyStr (getSpent L (txid last))) /\
           (fetched sf = map txid (e :: rest) \/
            exists id, getTx L id = None /\
                       fetched sf = map txid (e :: rest) ++ [id])
     end).
Proof.
  intros Hwt Htx H. unfold traceLineage in H. rewrite resume_snoc in H.
  destruct (truthyStr (spentBy last)) eqn:Ht; split; try discriminate; intros _.
  - destruct (spentBy last) as [next|] eqn:Hsp; [|discriminate Ht].
    destruct (loop_start L fuel
                {| lineage := init ++ [last]; currentTxid := Some next;
                   gen := generation last + 1; fetched := [] |}
                sf next eq_refl Ht eq_refl H)
      as (app & Hl & Hhd & Hf & Hfirst).
    cbn [lineage gen] in Hl, Hfirst.
    exists app. split; [exact Hl|]. split; [exact Hhd|]. split; [exact Hf|].
    intros e He. destruct (getTx L next) as [tx|].
    + destruct Hfirst as (out & e' & rest & _ & -> & He1 & He2 & _).
      cbn in He. injection He as <-. split; [now rewrite He1 | exact He2].
    + subst app. discriminate He.
  - destruct Hwt as [_ Halive].
    rewrite (Halive last) in H
      by (try apply in_or_app; try right; try (now left); exact Ht).
    destruct (loop_start L fuel
                {| lineage := init; currentTxid := Some (txid last);
                   gen := generation last; fetched := [] |}
                sf (txid last) eq_refl Htx eq_refl H)
      as (app & Hl & Hhd & Hf & Hfirst).
    cbn [lineage gen] in Hl, Hfirst.
    split; [exact Hhd|].
    destruct (getTx L (txid last)) as [tx|] eqn:Hg.
    + destruct Hfirst as (out & e & rest & Hv & -> & He1 & He2 & He3 & He4 & He5).
      exists out, e, rest. repeat split; assumption.
    + subst app. rewrite app_nil_r in Hl. split; [exact Hl|].
      destruct Hf as [Hf|(id & _ & Hf)]; rewrite Hf in Hhd |- *;
        cbn [map List.app hd_error] in *; congruence.
Qed.

Lemma resume_from_cache_witness :
  hd_error (fetched Examples.rewalk) = Some (txid Examples.entry1) /\
  match getTx Examples.ledger2 (txid Examples.entry1) with
  | None => lineage Examples.rewalk = [Examples.entry0] /\
            fetched Examples.rewalk = [txid Examples.entry1]
  | Some tx =>
      exists out e rest,
        hd_error (vout tx) = Some out /\
        lineage Examples.rewalk = [Examples.entry0] ++ e :: rest /\
        txid e = txid Examples.entry1 /\
        generation e = generation Examples.entry1 /\
        balance e = toSats (value out) /\
        spentBy e = (if truthyStr (getSpent Examples.ledger2 (txid Examples.entry1))
                     then getSpent Examples.ledger2 (txid Examples.entry1)
                     else None) /\
        alive e = negb (truthyStr (getSpent Examples.ledger2 (txid Examples.entry1))) /\
        (fetched Examples.rewalk = map txid (e :: rest) \/
         exists id, getTx Examples.ledger2 id = None /\
                    fetched Examples.rewalk = map txid (e :: rest) ++ [id])
  end.
Proof.
  apply (resume_from_cache Examples.ledger2 2 [Examples.entry0] Examples.entry1
           Examples.idSpawn Examples.rewalk).
  - exact ledger2_trace.
  - reflexivity.
  - reflexivity.
  - reflexivity.
Defined.

End WalkerClaims.

(** * Further properties of the code *)

(** ** The decoder and the widths of the pushes *)

Section PushWidths.

Lemma length_fromHex (n : nat) (s : string) :
  (String.length s <= n)%nat ->
  (2 * List.length (fromHex s) <= String.length s)%nat.
Proof.
  revert s. induction n as [|n IH]; intros s Hn.
  - destruct s; [simpl; lia | simpl in Hn; lia].
  - destruct s as [|c1 [|c2 s]]; try (simpl; lia).
    cbn [fromHex].
    destruct (digitVal 16 c1); [|simpl; lia].
    destruct (digitVal 16 c2); [|simpl; lia].
    simpl in Hn. specialize (IH s ltac:(lia)). simpl. lia.
Qed.

Lemma readUInt32LE_short (b : Buffer) :
  (List.length b < 4)%nat -> readUInt32LE b = None.
Proof.
  destruct b as [|b0 [|b1 [|b2 [|b3 b]]]]; simpl; intros H;
    try reflexivity; lia.
Qed.




(** X2. A generation push of fewer than four bytes, in a tag region of at
    least 78 hex digits, makes [decodeORG1] throw: the answer is neither a
    record nor null. *)
Theorem short_generation_push_throws (a b : Z) (T G rest : string)
    (pre post : list Vout) :
  isByte a -> 0 <= b <= 3 ->
  len T = 2 * a -> len G = 2 * b ->
  78 <= 4 + 2 * a + 2 * b + len rest ->
  Forall (fun o => decodeOutput o = None) pre ->
  decodeORG1
    (txOf (pre ++
           scriptOut ("006a04" ++ TAG ++ byteHex a ++ T ++ byteHex b ++ G ++ rest)
           :: post))
  = RangeError.
Proof.
  intros Ha Hb HT HG Hlen Hpre.
  unfold decodeORG1, txOf. cbn [vout].
  apply decodeOutputs_first; [exact Hpre|].
  rewrite decodeOutput_script
    by (rewrite !len_append, !len_byteHex, HT, HG; lia).
  assert (Hshort : readUInt32LE (fromHex G) = None).
  { apply readUInt32LE_short.
    pose proof (length_fromHex (String.length G) G (le_n _)) as Hl.
    unfold len in HG. lia. }
  set (after := (byteHex a ++ T ++ byteHex b ++ G ++ rest)%string).
  assert (LA : len (byteHex a) = 2) by apply len_byteHex.
  assert (LB : len (byteHex b) = 2) by apply len_byteHex.
  assert (PA : parseInt (byteHex a) 16 = Some a)
    by (apply parseInt_byteHex; exact Ha).
  assert (PB : parseInt (byteHex b) 16 = Some b)
    by (apply parseInt_byteHex; unfold isByte; lia).
  assert (S1 : slice after (Some 0) (Some (0 + 2)) = byteHex a).
  { apply (slice_mid EmptyString (byteHex a)); [reflexivity | lia]. }
  assert (S3 : slice after (Some (0 + 2 + a * 2)) (Some (0 + 2 + a * 2 + 2))
               = byteHex b).
  { unfold after. rewrite <- (append_assoc (byteHex a) T).
    apply (slice_mid (byteHex a ++ T) (byteHex b)); rewrite ?len_append; lia. }
  assert (S4 : slice after (Some (0 + 2 + a * 2 + 2))
                 (Some (0 + 2 + a * 2 + 2 + b * 2)) = G).
  { unfold after.
    rewrite <- (append_assoc (byteHex a) T), <- (append_assoc _ (byteHex b)).
    apply (slice_mid ((byteHex a ++ T) ++ byteHex b) G); rewrite ?len_append; lia. }
  unfold decodeFields. fold after.
  cbn [jadd]. rewrite S1, PA. cbn [jadd jmul].
  rewrite S3, PB. cbn [jadd jmul]. rewrite S4, Hshort. reflexivity.
Qed.

Lemma short_generation_push_throws_witness :
  decodeORG1 Notions.txShortGen = RangeError.
Proof.
  apply (short_generation_push_throws 1 3 "00" "010000"
           "2000000000000000000000000000000000000000000000000000000000000000000000"
           [] []).
  - vm_compute. split; discriminate.
  - lia.
  - reflexivity.
  - reflexivity.
  - vm_compute. discriminate.
  - constructor.
Defined.

End PushWidths.

(** ** The claimer and the reward of an entry *)

Section Rewards.

Import Walker.

Lemma find_rev_last {A : Type} (p : A -> bool) (l : list A) :
  match find p (rev l) with
  | Some x => exists pre post, l = pre ++ x :: post /\ p x = true /\
                               Forall (fun y => p y = false) post
  | None => Forall (fun y => p y = false) l
  end.
Proof.
  induction l as [|x l IH] using rev_ind.
  - constructor.
  - rewrite rev_app_distr. cbn [rev List.app find].
    destruct (p x) eqn:Hx.
    + exists l, []. repeat split; [exact Hx | constructor].
    + destruct (find p (rev l)) as [y|].
      * destruct IH as (pre & post & -> & Hy & Hpost).
        exists pre, (post ++ [x]). split; [now rewrite <- app_assoc|].
        split; [exact Hy|]. apply Forall_app. split; [exact Hpost|].
        constructor; [exact Hx | constructor].
      * apply Forall_app. split; [exact IH|].
        constructor; [exact Hx | constructor].
Qed.

(** X3. [getRewardAddress] answers with the first address of the last
    output that has one, whatever outputs come before it, and with
    'unknown' exactly when no output has an address. *)
Theorem getRewardAddress_last_address (tx : Tx) :
  (exists pre out post,
     vout tx = pre ++ out :: post /\
     firstAddress out = Some (getRewardAddress tx) /\
     truthyStr (Some (getRewardAddress tx)) = true /\
     Forall (fun o => truthyStr (firstAddress o) = false) post) \/
  (Forall (fun o => truthyStr (firstAddress o) = false) (vout tx) /\
   getRewardAddress tx = "unknown").
Proof.
  unfold getRewardAddress.
  pose proof (find_rev_last (fun out => truthyStr (firstAddress out)) (vout tx)) as H.
  destruct (find _ (rev (vout tx))) as [out|].
  - left. destruct H as (pre & post & Hv & Hp & Hpost).
    exists pre, out, post. split; [exact Hv|].
    destruct (firstAddress out) as [a|]; [|discriminate Hp].
    repeat split; assumption.
  - right. split; [exact H | reflexivity].
Qed.

Lemma toSats_nonneg (v : Q) : Qle_bool v 0 = false -> 0 <= toSats v.
Proof.
  intros H. unfold toSats.
  assert (Hv : (0 < v)%Q).
  { apply Qnot_le_lt. intros Hle. apply Qle_bool_iff in Hle. congruence. }
  change 0 with (Qfloor 0). apply Qfloor_resp_le.
  apply Qlt_le_weak in Hv.
  assert (H1 : (0 <= v * (100000000 # 1))%Q)
    by (apply Qmult_le_0_compat; [exact Hv | discriminate]).
  apply Qle_trans with (y := (v * (100000000 # 1))%Q); [exact H1|].
  rewrite <- (Qplus_0_r (v * (100000000 # 1))) at 1.
  apply Qplus_le_r. discriminate.
Qed.

Lemma sumRewards_nonneg (outs : list Vout) : 0 <= sumRewards outs.
Proof.
  unfold sumRewards.
  assert (G : forall l acc, 0 <= acc ->
            0 <= fold_left (fun acc out =>
                   if paysAddress out then acc + toSats (value out) else acc) l acc).
  { induction l as [|out l IH]; intros acc Hacc; [exact Hacc|].
    cbn [fold_left]. apply IH.
    destruct (paysAddress out) eqn:Hp; [|exact Hacc].
    unfold paysAddress in Hp. apply andb_true_iff in Hp. destruct Hp as [Hp _].
    apply negb_true_iff in Hp. pose proof (toSats_nonneg _ Hp). lia. }
  apply G. lia.
Qed.

Variable L : Ledger.

(** What holds of the entry of every turn holds of every entry a walk
    appends. *)
Lemma appended_all (P : Entry -> Prop) :
  (forall s s' e, turn L s s' -> lineage s' = lineage s ++ [e] -> P e) ->
  forall s0 s app, reaches L s0 s -> lineage s = lineage s0 ++ app ->
                   Forall P app.
Proof.
  intros HP s0 s app Hr. revert app.
  induction Hr as [|s1 s2 Hr IH Hturn]; intros app Hl.
  - assert (app = []) by
      (apply app_inv_head with (l := lineage s0); now rewrite app_nil_r).
    subst. constructor.
  - destruct (walk_inv L s0 s1 Hr) as (app1 & Hl1 & _).
    destruct (turn_inv L s1 s2 Hturn) as (e & Hl2 & _).
    assert (app = app1 ++ [e]).
    { apply app_inv_head with (l := lineage s0).
      now rewrite <- Hl, Hl2, Hl1, app_assoc. }
    subst app. apply Forall_app. split; [now apply IH|].
    constructor; [|constructor]. exact (HP s1 s2 e Hturn Hl2).
Qed.

Lemma turn_reward (s s' : State) (e : Entry) :
  turn L s s' -> lineage s' = lineage s ++ [e] -> 0 <= reward e.
Proof.
  intros (cur & Hcur & _ & Hbody) Hl.
  unfold body in Hbody.
  destruct (getTx L cur) as [tx|]; [|discriminate].
  destruct (vout tx) as [|organismOutput outs] eqn:Hv; [discriminate|].
  set (org1 := match decodeORG1 tx with Found r => Some r | _ => None end) in *.
  set (entry := makeEntry (lineage s) (gen s) cur tx organismOutput org1) in *.
  assert (Hr : 0 <= reward entry).
  { unfold entry, makeEntry. cbn [reward].
    destruct (gen s =? 0); [lia | apply sumRewards_nonneg]. }
  assert (He : reward e = reward entry).
  { destruct (decodeORG1 tx); try discriminate;
      destruct (truthyStr (getSpent L cur)); injection Hbody as <-;
      cbn [lineage] in Hl; apply app_inv_head in Hl; injection Hl as <-;
      reflexivity. }
  now rewrite He.
Qed.

(** X4. The reward of an entry is never negative: only outputs of a
    positive value that pay an address are counted. *)
Theorem reward_never_negative (s0 s : State) (app : list Entry) :
  reaches L s0 s -> lineage s = lineage s0 ++ app ->
  Forall (fun e => 0 <= reward e) app.
Proof.
  apply appended_all. intros s1 s2 e Ht Hl.
  exact (turn_reward s1 s2 e Ht Hl).
Qed.

End Rewards.

Lemma reward_never_negative_witness :
  Forall (fun e => 0 <= Walker.reward e) [Examples.entry0; Examples.entry1].
Proof.
  apply (reward_never_negative Examples.ledger2
           (Walker.resume None Examples.idSpawn) Examples.walk2).
  - exact ledger2_walk.
  - reflexivity.
Defined.

(** ** The loop: fuel, ends and exceptions *)

Section Loop.

Import Walker.

Variable L : Ledger.

Lemma loop_more (n k : nat) (s : State) (o : Outcome) :
  loop n L s = Some o -> loop (n + k) L s = Some o.
Proof.
  revert s. induction n as [|n IH]; intros s H; [discriminate|].
  cbn [loop Nat.add] in *.
  destruct (currentTxid s) as [cur|]; [|exact H].
  destruct (truthyStr (Some cur)); [|exact H].
  destruct (body L s cur); [now apply IH | exact H | exact H].
Qed.

Lemma loop_unique (n m : nat) (s : State) (o o' : Outcome) :
  loop n L s = Some o -> loop m L s = Some o' -> o = o'.
Proof.
  intros H1 H2. apply (loop_more n m) in H1. apply (loop_more m n) in H2.
  rewrite Nat.add_comm in H2. congruence.
Qed.

Lemma loop_turn (n : nat) (s s' : State) :
  turn L s s' -> loop (S n) L s = loop n L s'.
Proof.
  intros (cur & Hcur & Ht & Hb). cbn [loop]. now rewrite Hcur, Ht, Hb.
Qed.

(** The outcome of the loop from a state it passes through is its
    outcome from the start. *)
Lemma loop_from_reaches (s0 s : State) (n : nat) (o : Outcome) :
  reaches L s0 s -> loop n L s = Some o -> exists m, loop m L s0 = Some o.
Proof.
  intros Hr. revert n. induction Hr as [|s1 s2 _ IH Hturn]; intros n H.
  - now exists n.
  - apply (IH (S n)). now rewrite (loop_turn n s1 s2 Hturn).
Qed.

(** An outcome is that of the last turn of the loop, at a state the loop
    passes through. *)
Lemma loop_end (fuel : nat) (s0 : State) (o : Outcome) :
  loop fuel L s0 = Some o ->
  exists s, reaches L s0 s /\ loop 1 L s = Some o.
Proof.
  revert s0. induction fuel as [|fuel IH]; intros s0 H; [discriminate|].
  cbn [loop] in H.
  destruct (currentTxid s0) as [cur|] eqn:Hcur.
  - destruct (truthyStr (Some cur)) eqn:Ht.
    + destruct (body L s0 cur) as [s1|s1|] eqn:Hb.
      * destruct (IH s1 H) as (s & Hr & Hs). exists s. split; [|exact Hs].
        clear - Hr Hcur Ht Hb.
        induction Hr as [|sa sb _ IHr Hturn].
        -- apply reaches_turn with (s1 := s0); [constructor|].
           exists cur. repeat split; assumption.
        -- apply reaches_turn with (s1 := sa); assumption.
      * exists s0. split; [constructor|]. cbn [loop]. now rewrite Hcur, Ht, Hb.
      * exists s0. split; [constructor|]. cbn [loop]. now rewrite Hcur, Ht, Hb.
    + exists s0. split; [constructor|]. cbn [loop]. now rewrite Hcur, Ht.
  - exists s0. split; [constructor|]. cbn [loop]. now rewrite Hcur.
Qed.

Lemma resume_current (existing : option (list Entry)) (spawnTxid : string) :
  currentTxid (resume existing spawnTxid) <> None.
Proof.
  destruct existing as [l|]; [|discriminate].
  induction l as [|last init _] using rev_ind; [discriminate|].
  rewrite resume_snoc.
  destruct (truthyStr (spentBy last)) eqn:Ht.
  - cbn [currentTxid]. destruct (spentBy last); [discriminate | discriminate Ht].
  - destruct (alive last); discriminate.
Qed.

(** The body of the loop reads the lineage and the generation counter of
    the state, and nothing else of it. *)
Lemma body_frame (s t s' : State) (cur : string) :
  lineage s = lineage t -> gen s = gen t ->
  body L s cur = Next s' ->
  body L t cur
  = Next {| lineage := lineage s'; currentTxid := currentTxid s';
            gen := gen s'; fetched := fetched t ++ [cur] |}.
Proof.
  intros Hl Hg. unfold body. rewrite Hl, Hg.
  destruct (getTx L cur) as [tx|]; [|discriminate].
  destruct (vout tx) as [|organismOutput outs]; [discriminate|].
  destruct (decodeORG1 tx); try discriminate;
    destruct (truthyStr (getSpent L cur)); intros H; injection H as <-;
    reflexivity.
Qed.

(** X5. What [traceLineage] writes always starts with the entries it kept
    from the cache, unchanged, also when a fetch fails on the way: the
    entries traced so far are written. *)
Theorem written_lineage_extends_kept (fuel : nat)
    (existing : option (list Entry)) (spawnTxid : string) (sf : State) :
  traceLineage fuel L existing spawnTxid = Some (Saved sf) ->
  exists app,
    lineage sf = lineage (resume existing spawnTxid) ++ app /\
    Forall (fun e => In (txid e) (fetched sf)) app.
Proof.
  intros H. destruct (loop_saved L fuel _ sf H) as (s & Hr & Hl & Hf).
  destruct (walk_inv L _ s Hr) as (app & Hl' & Hf' & _).
  exists app. split; [congruence|].
  apply Forall_forall. intros e He.
  assert (Hin : In (txid e) (fetched s)).
  { rewrite Hf'. apply in_or_app. right. now apply in_map. }
  destruct Hf as [->|(id & _ & _ & ->)]; [exact Hin|].
  apply in_or_app. now left.
Qed.

(** X6. A tip that cannot be fetched again is lost: when the last cached
    entry records no spender and the ledger does not produce its
    transaction, the lineage written is the cache without that entry. *)
Theorem failed_recheck_drops_tip (fuel : nat) (init : list Entry) (last : Entry)
    (spawnTxid : string) :
  truthyStr (spentBy last) = false -> alive last = true ->
  truthyStr (Some (txid last)) = true ->
  getTx L (txid last) = None ->
  traceLineage (S fuel) L (Some (init ++ [last])) spawnTxid
  = Some (Saved {| lineage := init; currentTxid := Some (txid last);
                   gen := generation last; fetched := [txid last] |}).
Proof.
  intros Hs Ha Ht Hg. unfold traceLineage. rewrite resume_snoc, Hs, Ha.
  cbn [loop currentTxid]. rewrite Ht. unfold body. rewrite Hg. reflexivity.
Qed.

(** X7. The walk comes to an end on every finite chain of spends: with
    enough turns [traceLineage] has an outcome. *)
Theorem trace_terminates (existing : option (list Entry))
    (spawnTxid cur : string) :
  currentTxid (resume existing spawnTxid) = Some cur ->
  Notions.finiteChain L cur ->
  exists fuel o, traceLineage fuel L existing spawnTxid = Some o.
Proof.
  unfold traceLineage. generalize (resume existing spawnTxid) as s.
  intros s Hcur Hfin. revert s Hcur.
  induction Hfin as [cur Hg|cur Hs|cur next Hs Hfin IH]; intros s Hcur.
  - exists 1%nat. cbn [loop]. rewrite Hcur.
    destruct (truthyStr (Some cur)); [|eauto].
    unfold body. rewrite Hg. eauto.
  - exists 2%nat. cbn [loop]. rewrite Hcur.
    destruct (truthyStr (Some cur)); [|eauto].
    unfold body. destruct (getTx L cur) as [tx|]; [|eauto].
    destruct (vout tx); [eauto|].
    destruct (decodeORG1 tx); rewrite ?Hs; cbn [currentTxid]; eauto.
  - destruct (truthyStr (Some cur)) eqn:Ht;
      [|exists 1%nat; cbn [loop]; rewrite Hcur, Ht; eauto].
    destruct (body L s cur) as [s1|s1|] eqn:Hb;
      [| exists 1%nat; cbn [loop]; rewrite Hcur, Ht, Hb; eauto
       | exists 1%nat; cbn [loop]; rewrite Hcur, Ht, Hb; eauto].
    destruct (truthyStr (Some next)) eqn:Hn.
    + assert (Hc1 : currentTxid s1 = Some next).
      { unfold body in Hb. destruct (getTx L cur) as [tx|]; [|discriminate].
        destruct (vout tx); [discriminate|]. rewrite Hs, Hn in Hb.
        destruct (decodeORG1 tx); try discriminate; injection Hb as <-;
          reflexivity. }
      destruct (IH s1 Hc1) as (fuel & o & Ho).
      exists (S fuel), o. cbn [loop]. now rewrite Hcur, Ht, Hb.
    + assert (Hc1 : currentTxid s1 = None).
      { unfold body in Hb. destruct (getTx L cur) as [tx|]; [|discriminate].
        destruct (vout tx); [discriminate|]. rewrite Hs, Hn in Hb.
        destruct (decodeORG1 tx); try discriminate; injection Hb as <-;
          reflexivity. }
      exists 2%nat. cbn [loop]. rewrite Hcur, Ht, Hb, Hc1. eauto.
Qed.

(** X8. An exception in the loop loses the whole trace: when the walk
    comes to a transaction without outputs, or to one whose annotation
    makes [decodeORG1] throw, [traceLineage] throws and writes nothing,
    however many entries it had traced. *)
Theorem exception_loses_trace (existing : option (list Entry))
    (spawnTxid cur : string) (s : State) (tx : Tx) :
  reaches L (resume existing spawnTxid) s ->
  currentTxid s = Some cur -> truthyStr (Some cur) = true ->
  getTx L cur = Some tx ->
  vout tx = [] \/ decodeORG1 tx = RangeError ->
  (exists fuel, traceLineage fuel L existing spawnTxid = Some Thrown) /\
  (forall fuel o, traceLineage fuel L existing spawnTxid = Some o -> o = Thrown).
Proof.
  intros Hr Hcur Ht Hg Hbad.
  assert (H1 : loop 1 L s = Some Thrown).
  { cbn [loop]. rewrite Hcur, Ht. unfold body. rewrite Hg.
    destruct Hbad as [->| Hd]; [reflexivity|].
    destruct (vout tx); [reflexivity|]. now rewrite Hd. }
  destruct (loop_from_reaches _ s 1 Thrown Hr H1) as (m & Hm).
  split; [now exists m|].
  intros fuel o Ho. symmetry. exact (loop_unique m fuel _ _ _ Hm Ho).
Qed.

(** X9. Tracing again changes nothing on an unchanged ledger: when a
    trace ended at an unspent tip, the next run from the lineage it wrote
    fetches the transaction of the tip, and only that one, and writes the
    same lineage. *)
Theorem retrace_is_stable (fuel : nat) (existing : option (list Entry))
    (spawnTxid spawnTxid' : string) (sf : State) :
  traceLineage fuel L existing spawnTxid = Some (Saved sf) ->
  currentTxid sf = None ->
  exists tip,
    hd_error (rev (lineage sf)) = Some tip /\
    traceLineage 2 L (Some (lineage sf)) spawnTxid'
    = Some (Saved {| lineage := lineage sf; currentTxid := None;
                     gen := gen sf; fetched := [txid tip] |}).
Proof.
  intros H Hnone. destruct (loop_end fuel _ _ H) as (s & Hr & Hs).
  assert (Hsf : s = sf).
  { cbn [loop] in Hs. destruct (currentTxid s) as [cur|] eqn:Hcur.
    - destruct (truthyStr (Some cur)) eqn:Ht.
      + destruct (body L s cur) as [s1|s1|] eqn:Hb; try discriminate.
        injection Hs as <-. unfold body in Hb.
        destruct (getTx L cur) as [tx|].
        * destruct (vout tx); [discriminate|].
          destruct (decodeORG1 tx); try discriminate;
            destruct (truthyStr (getSpent L cur)); discriminate.
        * injection Hb as <-. cbn [currentTxid] in Hnone. congruence.
      + now injection Hs.
    - now injection Hs. }
  subst s.
  destruct Hr as [|s1 sf _ Hturn];
    [exfalso; exact (resume_current existing spawnTxid Hnone)|].
  destruct (turn_inv L s1 sf Hturn)
    as (e & Hl & _ & Hcur & Hgen & _ & _ & Hend).
  destruct Hend as [(_ & Ht & Hc & _)|(Ha & Hsp & _ & Hg)].
  { rewrite Hnone in Hc. rewrite <- Hc in Ht. discriminate. }
  exists e. split; [rewrite Hl, rev_app_distr; reflexivity|].
  destruct Hturn as (cur & Hcur' & Htr & Hb).
  assert (cur = txid e) by congruence. subst cur.
  unfold traceLineage. rewrite Hl, resume_snoc, Hsp, Ha. cbn [truthyStr].
  cbn [loop currentTxid]. rewrite Htr.
  rewrite (body_frame s1 _ sf (txid e)) by (cbn [lineage gen]; congruence).
  cbn [currentTxid]. rewrite Hnone, <- Hl. reflexivity.
Qed.

End Loop.

Lemma written_lineage_extends_kept_witness :
  exists app,
    Walker.lineage Examples.walk2
    = Walker.lineage (Walker.resume None Examples.idSpawn) ++ app /\
    Forall (fun e => In (Walker.txid e) (Walker.fetched Examples.walk2)) app.
Proof.
  apply (written_lineage_extends_kept Examples.ledger2 3 None Examples.idSpawn).
  reflexivity.
Defined.

Lemma failed_recheck_drops_tip_witness :
  Walker.traceLineage 1 Notions.ledgerCut
    (Some ([Examples.entry0] ++ [Examples.entry1])) Examples.idSpawn
  = Some (Walker.Saved
            {| Walker.lineage := [Examples.entry0];
               Walker.currentTxid := Some Examples.idGen1;
               Walker.gen := 1; Walker.fetched := [Examples.idGen1] |}).
Proof.
  apply (failed_recheck_drops_tip Notions.ledgerCut 0 [Examples.entry0]
           Examples.entry1 Examples.idSpawn); reflexivity.
Defined.

Lemma trace_terminates_witness :
  exists fuel o,
    Walker.traceLineage fuel Examples.ledger2 None Examples.idSpawn = Some o.
Proof.
  apply (trace_terminates Examples.ledger2 None Examples.idSpawn Examples.idSpawn).
  - reflexivity.
  - apply Notions.finite_next with (next := Examples.idGen1); [reflexivity|].
    apply Notions.finite_tip. reflexivity.
Defined.

Lemma exception_loses_trace_witness :
  (exists fuel,
     Walker.traceLineage fuel Notions.ledgerShortGen None Examples.idSpawn
     = Some Walker.Thrown) /\
  (forall fuel o,
     Walker.traceLineage fuel Notions.ledgerShortGen None Examples.idSpawn = Some o ->
     o = Walker.Thrown).
Proof.
  apply (exception_loses_trace Notions.ledgerShortGen None Examples.idSpawn
           Examples.idSpawn (Walker.resume None Examples.idSpawn) Notions.txShortGen).
  - apply Walker.reaches_refl.
  - reflexivity.
  - reflexivity.
  - reflexivity.
  - right. reflexivity.
Defined.

Lemma retrace_is_stable_witness :
  exists tip,
    hd_error (rev (Walker.lineage Examples.walk2)) = Some tip /\
    Walker.traceLineage 2 Examples.ledger2
      (Some (Walker.lineage Examples.walk2)) Examples.idSpawn
    = Some (Walker.Saved
              {| Walker.lineage := Walker.lineage Examples.walk2;
                 Walker.currentTxid := None;
                 Walker.gen := Walker.gen Examples.walk2;
                 Walker.fetched := [Walker.txid tip] |}).
Proof.
  apply (retrace_is_stable Examples.ledger2 3 None Examples.idSpawn
           Examples.idSpawn Examples.walk2); reflexivity.
Defined.

(** ** The shape of a written lineage, and its summary *)

Section Shape.

Import Walker Notions.

Variable L : Ledger.

Lemma chain_linked cur g app cur' g' :
  chain cur g app cur' g' -> linked app.
Proof.
  intros Hc i e e' Hn Hn'.
  assert (Ha : alive e = false).
  { destruct (alive e) eqn:Ha; [|reflexivity].
    destruct (chain_alive _ _ _ _ _ _ _ Hc Hn Ha) as [Hlen _].
    assert (S i < List.length app)%nat by (apply nth_error_Some; congruence).
    lia. }
  destruct (chain_spent _ _ _ _ _ _ _ Hc Hn Ha) as (_ & Hnext & _).
  destruct (chain_gen _ _ _ _ _ Hc) as [_ Hgen].
  repeat split; [exact Ha | now apply Hnext |].
  rewrite (Hgen _ _ Hn), (Hgen _ _ Hn'). lia.
Qed.

Lemma chain_last cur g app e cur' g' :
  chain cur g (app ++ [e]) cur' g' ->
  (alive e = false /\ truthyStr (spentBy e) = true /\ cur' = spentBy e) \/
  (alive e = true /\ spentBy e = None /\ cur' = None).
Proof.
  intros Hc.
  assert (Hn : nth_error (app ++ [e]) (List.length app) = Some e)
    by (rewrite nth_error_app2, Nat.sub_diag by lia; reflexivity).
  assert (Hlen : S (List.length app) = List.length (app ++ [e]))
    by (rewrite length_app; simpl; lia).
  destruct (chain_entry _ _ _ _ _ e Hc) as [(Ha & Ht)|(Ha & Hs)].
  - apply in_or_app. right. now left.
  - left. destruct (chain_spent _ _ _ _ _ _ _ Hc Hn Ha) as (_ & _ & Hl).
    repeat split; [exact Ha | exact Ht | now apply Hl].
  - right. destruct (chain_alive _ _ _ _ _ _ _ Hc Hn Ha) as [_ Hnone].
    repeat split; assumption.
Qed.

Lemma lineageOk_gen (l : list Entry) :
  lineageOk l ->
  forall i e, nth_error l i = Some e -> generation e = Z.of_nat i.
Proof.
  intros (Hlink & _ & Hhd). induction i as [|i IH]; intros e Hn.
  - apply Hhd. destruct l; [discriminate | exact Hn].
  - destruct (nth_error l i) as [p|] eqn:Hp.
    + destruct (Hlink i p e Hp Hn) as (_ & _ & Hg).
      rewrite Hg, (IH p eq_refl). lia.
    + apply nth_error_None in Hp.
      assert (S i < List.length l)%nat by (apply nth_error_Some; congruence).
      lia.
Qed.

Lemma lineageOk_prefix (a b : list Entry) : lineageOk (a ++ b) -> lineageOk a.
Proof.
  intros (Hlink & Hin & Hhd). split; [|split].
  - intros i e e' Hn Hn'. apply (Hlink i).
    + rewrite nth_error_app1; [exact Hn | apply nth_error_Some; congruence].
    + rewrite nth_error_app1; [exact Hn' | apply nth_error_Some; congruence].
  - intros e He. apply Hin. apply in_or_app. now left.
  - intros e He. apply Hhd. destruct a; [discriminate | exact He].
Qed.

Lemma turn_txid (s s' : State) (e : Entry) :
  turn L s s' -> lineage s' = lineage s ++ [e] ->
  truthyStr (Some (txid e)) = true.
Proof.
  intros Hturn Hl.
  destruct (turn_inv L s s' Hturn) as (e' & Hl' & _ & Hcur & _).
  assert (e' = e)
    by (rewrite Hl in Hl'; apply app_inv_head in Hl'; congruence).
  subst e'. destruct Hturn as (cur & Hcur' & Ht & _). congruence.
Qed.

(** The walk keeps a lineage in shape, when it starts at the spender the
    last kept entry records. *)
Lemma walk_lineageOk (s0 s : State) :
  lineageOk (lineage s0) ->
  gen s0 = Z.of_nat (List.length (lineage s0)) ->
  (forall init p, lineage s0 = init ++ [p] -> spentBy p = currentTxid s0) ->
  reaches L s0 s -> lineageOk (lineage s).
Proof.
  intros Hok Hg Hjoin Hr.
  destruct (walk_inv L s0 s Hr) as (app & Hl & _ & Hc).
  assert (Htx : Forall (fun e => truthyStr (Some (txid e)) = true) app)
    by (apply (appended_all L _ turn_txid s0 s app Hr Hl)).
  pose proof (lineageOk_gen _ Hok) as Hgen0.
  destruct Hok as (Hlink & Hin & Hhd).
  rewrite Hl. split; [|split].
  - intros i e e' Hn Hn'.
    destruct (Nat.lt_ge_cases (S i) (List.length (lineage s0))) as [Hlt|Hge].
    + rewrite nth_error_app1 in Hn by lia.
      rewrite nth_error_app1 in Hn' by lia. exact (Hlink i e e' Hn Hn').
    + rewrite nth_error_app2 in Hn' by lia.
      destruct (Nat.lt_ge_cases i (List.length (lineage s0))) as [Hlt'|Hge'].
      * rewrite nth_error_app1 in Hn by lia.
        replace (S i - List.length (lineage s0))%nat with 0%nat in Hn' by lia.
        assert (Hh : hd_error app = Some e')
          by (destruct app; [discriminate | exact Hn']).
        destruct (chain_first _ _ _ _ _ e' Hc Hh) as [Hcur Hge'].
        assert (Hsplit : exists init, lineage s0 = init ++ [e]).
        { destruct (exists_last (l := lineage s0)) as (init & p & Hp).
          - intros E. rewrite E in Hlt'. simpl in Hlt'. lia.
          - exists init. rewrite Hp in Hn, Hge, Hlt' |- *.
            rewrite length_app in Hge, Hlt'. simpl in Hge, Hlt'.
            rewrite nth_error_app2 in Hn by lia.
            replace (i - List.length init)%nat with 0%nat in Hn by lia.
            injection Hn as ->. reflexivity. }
        destruct Hsplit as (init & Hinit).
        assert (Hsp : spentBy e = Some (txid e'))
          by (rewrite (Hjoin init e Hinit); exact Hcur).
        assert (Hine : In e (lineage s0))
          by (rewrite Hinit; apply in_or_app; right; now left).
        destruct (Hin e Hine) as [Ha _].
        rewrite Forall_forall in Htx.
        assert (Hte : truthyStr (Some (txid e')) = true)
          by (apply Htx; destruct app; [discriminate|]; injection Hh as ->; now left).
        repeat split.
        -- rewrite Ha, Hsp, Hte. reflexivity.
        -- exact Hsp.
        -- rewrite Hge', Hg, (Hgen0 i e Hn). lia.
      * rewrite nth_error_app2 in Hn by lia.
        replace (S i - List.length (lineage s0))%nat
          with (S (i - List.length (lineage s0))) in Hn' by lia.
        exact (chain_linked _ _ _ _ _ Hc _ e e' Hn Hn').
  - intros e He. apply in_app_or in He. destruct He as [He|He]; [now apply Hin|].
    rewrite Forall_forall in Htx. split; [|now apply Htx].
    destruct (chain_entry _ _ _ _ _ e Hc He) as [(Ha & Ht)|(Ha & Hs)].
    + now rewrite Ha, Ht.
    + now rewrite Ha, Hs.
  - intros e He. destruct (lineage s0) as [|x kept] eqn:Ek.
    + cbn [List.app] in He.
      destruct (chain_first _ _ _ _ _ e Hc He) as [_ Hge].
      rewrite Hge, Hg. reflexivity.
    + apply Hhd. exact He.
Qed.

(** The state the loop starts in, from a cache in shape. *)
Lemma resume_lineageOk (existing : option (list Entry)) (spawnTxid : string) :
  match existing with Some l => lineageOk l | None => True end ->
  let s0 := resume existing spawnTxid in
  lineageOk (lineage s0) /\
  gen s0 = Z.of_nat (List.length (lineage s0)) /\
  (forall init p, lineage s0 = init ++ [p] -> spentBy p = currentTxid s0).
Proof.
  intros Hok.
  assert (Hnil : lineageOk []).
  { split; [|split].
    - intros [|i] e e' H; discriminate.
    - intros e [].
    - intros e H; discriminate. }
  assert (Hfresh : lineageOk (lineage (fresh spawnTxid)) /\
            gen (fresh spawnTxid)
            = Z.of_nat (List.length (lineage (fresh spawnTxid))) /\
            (forall init p, lineage (fresh spawnTxid) = init ++ [p] ->
                            spentBy p = currentTxid (fresh spawnTxid))).
  { split; [exact Hnil|]. split; [reflexivity|].
    intros init p H. destruct init; discriminate. }
  destruct existing as [l|]; [|exact Hfresh].
  induction l as [|last init _] using rev_ind; [exact Hfresh|].
  cbv zeta. rewrite resume_snoc.
  pose proof (lineageOk_gen _ Hok) as Hgen.
  assert (Hlast : generation last = Z.of_nat (List.length init)).
  { apply Hgen. rewrite nth_error_app2 by lia. now rewrite Nat.sub_diag. }
  assert (Halive : alive last = negb (truthyStr (spentBy last))).
  { destruct Hok as (_ & Hin & _). apply Hin. apply in_or_app. right. now left. }
  destruct (truthyStr (spentBy last)) eqn:Ht.
  - cbn [lineage gen currentTxid]. split; [exact Hok|]. split.
    + rewrite length_app. simpl. lia.
    + intros init' p Hp. apply app_inj_tail in Hp. destruct Hp as [_ ->].
      reflexivity.
  - rewrite Halive. cbn [negb lineage gen currentTxid].
    split; [exact (lineageOk_prefix init [last] Hok)|]. split; [exact Hlast|].
    intros init' p Hp. subst init.
    destruct Hok as (Hlink & _ & _).
    destruct (Hlink (List.length init') p last) as (_ & Hs & _).
    + rewrite <- app_assoc. rewrite nth_error_app2 by lia.
      now rewrite Nat.sub_diag.
    + rewrite nth_error_app2 by (rewrite length_app; cbn [List.length]; lia).
      rewrite length_app. cbn [List.length].
      replace (S (List.length init') - (List.length init' + 1))%nat
        with 0%nat by lia.
      reflexivity.
    + exact Hs.
Qed.

Lemma written_lineageOk (fuel : nat) (existing : option (list Entry))
    (spawnTxid : string) (sf : State) :
  match existing with Some l => lineageOk l | None => True end ->
  traceLineage fuel L existing spawnTxid = Some (Saved sf) ->
  lineageOk (lineage sf).
Proof.
  intros Hok H. destruct (loop_saved L fuel _ sf H) as (s & Hr & -> & _).
  destruct (resume_lineageOk existing spawnTxid Hok) as (H1 & H2 & H3).
  exact (walk_lineageOk _ s H1 H2 H3 Hr).
Qed.

(** X10. Every lineage [traceLineage] writes is in shape, from scratch or
    from a cache that is: the first entry is of generation 0, each next
    one is of the next generation and is the spender the entry before it
    records, an entry is alive exactly when it records no spender, and
    only the last one can be. *)
Theorem written_lineage_in_shape (fuel : nat) (existing : option (list Entry))
    (spawnTxid : string) (sf : State) :
  match existing with Some l => lineageOk l | None => True end ->
  traceLineage fuel L existing spawnTxid = Some (Saved sf) ->
  lineageOk (lineage sf) /\
  (forall i e, nth_error (lineage sf) i = Some e ->
               generation e = Z.of_nat i /\
               ((S i < List.length (lineage sf))%nat -> alive e = false)).
Proof.
  intros Hok H.
  pose proof (written_lineageOk fuel existing spawnTxid sf Hok H) as Hs.
  split; [exact Hs|].
  intros i e Hn. split; [exact (lineageOk_gen _ Hs i e Hn)|]. intros Hlt.
  destruct (nth_error (lineage sf) (S i)) as [e'|] eqn:Hn'.
  - destruct Hs as (Hlink & _). now destruct (Hlink i e e' Hn Hn').
  - apply nth_error_None in Hn'. lia.
Qed.

Lemma count_claims (l : list Entry) (base : Z) :
  0 <= base ->
  (forall i e, nth_error l i = Some e -> generation e = base + Z.of_nat i) ->
  Z.of_nat (List.length (filter (fun e => 0 <? generation e) l))
  = if base =? 0 then Z.max (Z.of_nat (List.length l) - 1) 0
    else Z.of_nat (List.length l).
Proof.
  revert base. induction l as [|x l IH]; intros base Hb Hg.
  - cbn. destruct (base =? 0); reflexivity.
  - assert (Hx : generation x = base) by (rewrite (Hg 0%nat x eq_refl); lia).
    assert (Hl : forall i e, nth_error l i = Some e ->
                             generation e = (base + 1) + Z.of_nat i).
    { intros i e Hn. rewrite (Hg (S i) e Hn). lia. }
    specialize (IH (base + 1) ltac:(lia) Hl).
    replace (base + 1 =? 0) with false in IH by (symmetry; apply Z.eqb_neq; lia).
    change (filter (fun e => 0 <? generation e) (x :: l))
      with (if 0 <? generation x
            then x :: filter (fun e => 0 <? generation e) l
            else filter (fun e => 0 <? generation e) l).
    rewrite Hx.
    destruct (base =? 0) eqn:E.
    + apply Z.eqb_eq in E. rewrite E.
      change (0 <? 0) with false. cbv iota.
      rewrite IH. cbn [List.length]. lia.
    + apply Z.eqb_neq in E.
      replace (0 <? base) with true by (symmetry; apply Z.ltb_lt; lia).
      cbn [List.length]. lia.
Qed.

(** X11. The summary of a written lineage: DEAD is printed only for a tip
    that records a spender the ledger did not produce; a tip whose first
    output is unspent is printed ALIVE; and the number of claims is the
    number of entries but the first. *)
Theorem summary_of_written_lineage (fuel : nat)
    (existing : option (list Entry)) (spawnTxid : string) (sf : State)
    (sm : Report.Summary) :
  match existing with Some l => lineageOk l | None => True end ->
  traceLineage fuel L existing spawnTxid = Some (Saved sf) ->
  Report.summarize (lineage sf) = Some sm ->
  (Report.reportsAlive sm = false ->
     exists next, spentBy (Report.living sm) = Some next /\
                  getTx L next = None) /\
  (Report.reportsAlive sm = true ->
     truthyStr (spentBy (Report.living sm)) = false) /\
  Z.of_nat (Report.totalClaims sm) = Z.of_nat (List.length (lineage sf)) - 1.
Proof.
  intros Hok H Hsm.
  pose proof (written_lineageOk fuel existing spawnTxid sf Hok H) as Hshape.
  destruct (lineage sf) as [|x rest] eqn:El; [discriminate|].
  assert (Hliving : Report.living sm = List.last rest x)
    by (cbn in Hsm; injection Hsm as <-; reflexivity).
  assert (Hsplit : x :: rest = removelast (x :: rest) ++ [Report.living sm]).
  { rewrite Hliving.
    replace (List.last rest x) with (List.last (x :: rest) x)
      by (destruct rest; reflexivity).
    apply app_removelast_last. discriminate. }
  assert (Hin : In (Report.living sm) (x :: rest))
    by (rewrite Hsplit; apply in_or_app; right; now left).
  destruct Hshape as (Hlink & Hinv & Hhd).
  destruct (Hinv _ Hin) as [Halive _].
  unfold Report.reportsAlive. split; [|split].
  - intros Hdead. rewrite Hdead in Halive.
    assert (Ht : truthyStr (spentBy (Report.living sm)) = true)
      by (destruct (truthyStr (spentBy (Report.living sm))); [reflexivity | discriminate]).
    destruct (spentBy (Report.living sm)) as [next|] eqn:Hsp; [|discriminate].
    exists next. split; [reflexivity|].
    destruct (loop_end L fuel _ _ H) as (s & Hr & Hs).
    destruct (resume_lineageOk existing spawnTxid Hok) as (_ & _ & Hjoin).
    destruct (walk_inv L _ s Hr) as (app & Hl & _ & Hc).
    assert (Hcur : lineage s = lineage sf -> currentTxid s = Some next).
    { intros Hsame. rewrite El, Hsplit in Hsame.
      destruct app as [|a app'] using rev_ind.
      - rewrite app_nil_r in Hl.
        destruct (chain_nil_inv _ _ _ _ Hc) as [-> _].
        rewrite <- (Hjoin (removelast (x :: rest)) (Report.living sm)); congruence.
      - clear IHapp'. rewrite Hl, app_assoc in Hsame.
        apply app_inj_tail in Hsame. destruct Hsame as [_ ->].
        destruct (chain_last _ _ _ _ _ _ Hc) as [(_ & _ & ->)|(_ & Hn & _)];
          congruence. }
    cbn [loop] in Hs. destruct (currentTxid s) as [cur|] eqn:Ecur.
    + destruct (truthyStr (Some cur)) eqn:Etr.
      * destruct (body L s cur) as [s1|s1|] eqn:Hb; try discriminate.
        injection Hs as <-. unfold body in Hb.
        destruct (getTx L cur) as [tx|] eqn:Hg.
        -- destruct (vout tx); [discriminate|].
           destruct (decodeORG1 tx); try discriminate;
             destruct (truthyStr (getSpent L cur)); discriminate.
        -- injection Hb as <-. cbn [lineage] in Hcur.
           specialize (Hcur eq_refl). injection Hcur as <-. exact Hg.
      * injection Hs as <-. specialize (Hcur eq_refl).
        injection Hcur as <-. congruence.
    + injection Hs as <-. specialize (Hcur eq_refl). discriminate Hcur.
  - intros Hlive. rewrite Hlive in Halive.
    destruct (truthyStr (spentBy (Report.living sm))); [discriminate | reflexivity].
  - assert (Htc : Report.totalClaims sm
                  = List.length (filter (fun e => 0 <? generation e) (x :: rest)))
      by (cbn in Hsm; injection Hsm as <-; reflexivity).
    rewrite Htc, (count_claims (x :: rest) 0).
    + cbn [Z.eqb List.length]. lia.
    + lia.
    + intros i e Hn.
      rewrite (lineageOk_gen (x :: rest) (conj Hlink (conj Hinv Hhd)) i e Hn). lia.
Qed.

(** X12. A spawn transaction the ledger does not have: [traceLineage]
    writes an empty lineage to the cache file, and then the summary
    throws. *)
Theorem unknown_spawn_writes_empty (fuel : nat) (st : Report.Store)
    (spawnTxid : string) :
  st (Report.cacheKey spawnTxid) = None ->
  truthyStr (Some spawnTxid) = true ->
  getTx L spawnTxid = None ->
  Report.traceStored (S fuel) L st spawnTxid
  = Some (Report.write st (Report.cacheKey spawnTxid) [],
          Report.WrittenThenRejected []).
Proof.
  intros Hst Ht Hg. unfold Report.traceStored, traceLineage. rewrite Hst.
  cbn [resume fresh loop currentTxid]. rewrite Ht. unfold body. rewrite Hg.
  reflexivity.
Qed.

End Shape.

Lemma ledger2_lineageOk : Notions.lineageOk [Examples.entry0; Examples.entry1].
Proof.
  split; [|split].
  - intros [|[|i]] e e' H H'; try discriminate; try (destruct i; discriminate).
    injection H as <-. injection H' as <-. repeat split.
  - intros e [<-|[<-|[]]]; split; reflexivity.
  - intros e H. injection H as <-. reflexivity.
Qed.

Lemma written_lineage_in_shape_witness :
  Notions.lineageOk (Walker.lineage Examples.rewalk) /\
  (forall i e, nth_error (Walker.lineage Examples.rewalk) i = Some e ->
               Walker.generation e = Z.of_nat i /\
               ((S i < List.length (Walker.lineage Examples.rewalk))%nat ->
                Walker.alive e = false)).
Proof.
  apply (written_lineage_in_shape Examples.ledger2 2
           (Some [Examples.entry0; Examples.entry1]) Examples.idSpawn).
  - exact ledger2_lineageOk.
  - reflexivity.
Defined.

Lemma summary_of_written_lineage_witness :
  exists sm,
    Report.summarize (Walker.lineage Examples.walk2) = Some sm /\
    (Report.reportsAlive sm = true ->
     truthyStr (Walker.spentBy (Report.living sm)) = false) /\
    Z.of_nat (Report.totalClaims sm) = 1.
Proof.
  eexists. split; [reflexivity|].
  destruct (summary_of_written_lineage Examples.ledger2 3 None Examples.idSpawn
              Examples.walk2 _ I eq_refl eq_refl) as (_ & H2 & H3).
  split; [exact H2 | exact H3].
Defined.

Lemma unknown_spawn_writes_empty_witness :
  Report.traceStored 1 Examples.ledger2 (fun _ => None) Examples.zeroTxid
  = Some (Report.write (fun _ => None) (Report.cacheKey Examples.zeroTxid) [],
          Report.WrittenThenRejected []).
Proof.
  apply (unknown_spawn_writes_empty Examples.ledger2 0); reflexivity.
Defined.

(** ** The covenant, over one reproduction and over many *)

Section Generations.

Import Contract.

Lemma opReturnScript_some (o : Organism) :
  0 <= organismType o <= 127 -> 0 <= generation o <= 2147483647 ->
  exists s, opReturnScript o = Some s.
Proof.
  intros Hty Hg. unfold opReturnScript.
  change 1 with (Z.of_nat 1) at 1. change 4 with (Z.of_nat 4) at 1.
  rewrite !int2ByteString_nonneg by (simpl; lia). eauto.
Qed.

Lemma int2ByteString_too_big (n : Z) (k : nat) :
  2 ^ (8 * Z.of_nat k - 1) <= n -> (0 < k)%nat ->
  int2ByteString n (Z.of_nat k) = None.
Proof.
  intros Hn Hk. unfold int2ByteString.
  assert (0 < 2 ^ (8 * Z.of_nat k - 1)) by (apply Z.pow_pos_nonneg; lia).
  destruct (n =? 0) eqn:E0; [apply Z.eqb_eq in E0; lia|].
  rewrite Z.abs_eq by lia.
  destruct (n <? 2 ^ (8 * Z.of_nat k - 1)) eqn:E1; [|reflexivity].
  apply Z.ltb_lt in E1. lia.
Qed.

(** X13. The contract cannot write the annotation of a species above 127,
    nor of a generation above 2^31 - 1: for such an organism [claim]
    accepts no transaction at all, and claim.cjs never broadcasts one.
    The organism that [spawn.cjs --type 200] creates is one of them. *)
Theorem unencodable_never_reproduces (o : Organism) :
  128 <= organismType o \/ 2147483647 <= generation o ->
  (forall ctx pkh, claim o ctx pkh = None) /\
  (forall balance spentInfo addr outs,
     Claim.claim o balance spentInfo addr <> Claim.Broadcast outs).
Proof.
  intros Hbad.
  assert (Hs : opReturnScript (nextGeneration o) = None).
  { unfold opReturnScript. cbn [nextGeneration organismType generation].
    destruct Hbad as [Hty|Hg].
    - change 1 with (Z.of_nat 1) at 1.
      rewrite int2ByteString_too_big by (simpl; lia). reflexivity.
    - change 4 with (Z.of_nat 4) at 1.
      rewrite (int2ByteString_too_big (generation o + 1)) by (simpl; lia).
      destruct (int2ByteString (organismType o) 1); reflexivity. }
  assert (Hc : forall ctx pkh, claim o ctx pkh = None).
  { intros ctx pkh. unfold claim, claimOutputs. now rewrite Hs. }
  split; [exact Hc|].
  intros balance spentInfo addr outs. unfold Claim.claim.
  destruct (truthyStr spentInfo); [discriminate|].
  destruct (hasMethod "claim"); [|discriminate].
  destruct (Claim.txBuilder o balance addr); [|discriminate].
  rewrite Hc. discriminate.
Qed.

Lemma unencodable_never_reproduces_witness :
  exists o outs,
    Spawn.spawn Notions.argsType200 Examples.funder (Some Notions.spawnUtxos)
    = Spawn.Assembled o outs /\
    (forall ctx pkh, claim o ctx pkh = None) /\
    (forall balance spentInfo addr outs',
       Claim.claim o balance spentInfo addr <> Claim.Broadcast outs').
Proof.
  eexists. eexists. split; [reflexivity|].
  apply unencodable_never_reproduces. left. vm_compute. discriminate.
Defined.

(** X14. What the covenant lets through, for a reward and a dust limit
    that are amounts (not negative): a spending transaction that [claim]
    accepts has exactly the expected outputs.  The new state is
    the old one with the generation plus one; the continuation, present
    exactly when the next balance reaches the dust limit, holds the value
    spent less reward and fee; the reward is exactly [reward] to the
    claimer.  So the outputs are worth the value spent less [fee] while
    the organism lives, and [reward] alone when it dies. *)
Theorem covenant_enforces (o o' : Organism) (ctx : Context) (pkh : ByteString) :
  0 <= reward o -> 0 <= dustLimit o ->
  claim o ctx pkh = Some o' ->
  let nextBalance := utxoValue ctx - reward o - fee o in
  o' = nextGeneration o /\
  (exists s,
     opReturnScript o' = Some s /\
     txOutputs ctx
     = (if dustLimit o <=? nextBalance
        then [{| script := StateScript o'; satoshis := nextBalance |}]
        else []) ++
       [{| script := DataScript s; satoshis := 0 |};
        {| script := P2PKH pkh; satoshis := reward o |}]) /\
  Lifespan.total (txOutputs ctx)
  = if dustLimit o <=? nextBalance then utxoValue ctx - fee o else reward o.
Proof.
  intros _ _ H nextBalance. unfold claim, claimOutputs in H.
  destruct (opReturnScript (nextGeneration o)) as [s|] eqn:Hs; [|discriminate].
  destruct (list_eq_dec Output_eq_dec _ _) as [Heq|]; [|discriminate].
  injection H as <-. split; [reflexivity|]. split.
  - exists s. split; [exact Hs|]. exact Heq.
  - rewrite Heq. cbn [nextGeneration dustLimit reward].
    fold nextBalance.
    destruct (dustLimit o <=? nextBalance); unfold Lifespan.total, buildStateOutput,
      buildOutput, buildPublicKeyHashOutput; cbn [List.app fold_right satoshis];
      unfold nextBalance; lia.
Qed.

Lemma covenant_enforces_witness :
  Lifespan.total
    [{| script := StateScript (nextGeneration Examples.organismA); satoshis := 96000 |};
     {| script := DataScript "006a044f52473101000401000000200000000000000000000000000000000000000000000000000000000000000000";
        satoshis := 0 |};
     {| script := P2PKH Examples.claimer; satoshis := 1000 |}]
  = 100000 - 3000.
Proof.
  destruct (covenant_enforces Examples.organismA (nextGeneration Examples.organismA)
              {| utxoValue := 100000;
                 txOutputs :=
                   [{| script := StateScript (nextGeneration Examples.organismA);
                       satoshis := 96000 |};
                    {| script := DataScript "006a044f52473101000401000000200000000000000000000000000000000000000000000000000000000000000000";
                       satoshis := 0 |};
                    {| script := P2PKH Examples.claimer; satoshis := 1000 |}] |}
              Examples.claimer) as (_ & _ & H).
  - vm_compute. discriminate.
  - vm_compute. discriminate.
  - reflexivity.
  - exact H.
Defined.

Lemma aged_0 (o : Organism) : Lifespan.aged o 0 = o.
Proof. destruct o. unfold Lifespan.aged. cbn. now rewrite Z.add_0_r. Qed.

Lemma aged_next (o : Organism) (k : Z) :
  Lifespan.aged (nextGeneration o) k = Lifespan.aged o (k + 1).
Proof.
  unfold Lifespan.aged, nextGeneration. cbn. f_equal. lia.
Qed.

Lemma reproduce_steps (k : nat) (o : Organism) (B : Z) (pkh : ByteString) :
  0 <= organismType o <= 127 -> 0 <= generation o ->
  generation o + Z.of_nat k <= 2147483647 ->
  0 < reward o + fee o ->
  Lifespan.reproduce k o B pkh
  = if (k =? 0)%nat || (dustLimit o <=? B - Z.of_nat k * (reward o + fee o))
    then Some (Lifespan.aged o (Z.of_nat k), B - Z.of_nat k * (reward o + fee o))
    else None.
Proof.
  revert o B. induction k as [|k IH]; intros o B Hty Hg Hk Hp.
  - cbn [Lifespan.reproduce Nat.eqb orb]. rewrite aged_0. f_equal. f_equal. lia.
  - cbn [Lifespan.reproduce Nat.eqb orb].
    destruct (opReturnScript_some (nextGeneration o)) as (s & Hs);
      [exact Hty | cbn [nextGeneration generation]; lia|].
    unfold claimOutputs. rewrite Hs.
    cbn [nextGeneration dustLimit reward fee].
    destruct (dustLimit o <=? B - reward o - fee o) eqn:Ealive.
    + cbn [List.app Lifespan.continuation buildStateOutput].
      rewrite IH; cbn [nextGeneration organismType generation reward fee dustLimit];
        try lia.
      change (dustLimit {| organismType := organismType o; reward := reward o;
                           fee := fee o; dustLimit := dustLimit o;
                           spawnTxid := spawnTxid o;
                           generation := generation o + 1 |})
        with (dustLimit o).
      fold (nextGeneration o). rewrite aged_next.
      replace (Z.of_nat k + 1) with (Z.of_nat (S k)) by lia.
      replace (B - reward o - fee o - Z.of_nat k * (reward o + fee o))
        with (B - Z.of_nat (S k) * (reward o + fee o)) by lia.
      destruct (k =? 0)%nat eqn:Ek; [|reflexivity].
      apply Nat.eqb_eq in Ek. subst k. cbn [orb].
      replace (B - Z.of_nat 1 * (reward o + fee o)) with (B - reward o - fee o) by lia.
      now rewrite Ealive.
    + cbn [List.app Lifespan.continuation buildOutput].
      apply Z.leb_gt in Ealive.
      replace (dustLimit o <=? B - Z.of_nat (S k) * (reward o + fee o)) with false
        by (symmetry; apply Z.leb_gt; nia).
      reflexivity.
Qed.

(** [reproduce_steps] with the bound as a floor. *)
Lemma reproduce_floor (k : nat) (o : Organism) (B : Z) (pkh : ByteString) :
  0 <= organismType o <= 127 -> 0 <= generation o ->
  generation o + Z.of_nat k <= 2147483647 ->
  0 < reward o + fee o -> (0 < k)%nat ->
  (Z.of_nat k <= (B - dustLimit o) / (reward o + fee o) ->
   Lifespan.reproduce k o B pkh
   = Some (Lifespan.aged o (Z.of_nat k),
           B - Z.of_nat k * (reward o + fee o))) /\
  ((B - dustLimit o) / (reward o + fee o) < Z.of_nat k ->
   Lifespan.reproduce k o B pkh = None).
Proof.
  intros Hty Hg Hk Hp Hpos.
  rewrite reproduce_steps by assumption.
  replace (k =? 0)%nat with false by (symmetry; apply Nat.eqb_neq; lia).
  cbn [orb]. split; intros H.
  - replace (dustLimit o <=? B - Z.of_nat k * (reward o + fee o)) with true;
      [reflexivity|].
    symmetry. apply Z.leb_le.
    assert (Z.of_nat k * (reward o + fee o) <= B - dustLimit o);
      [|lia].
    apply Z.le_trans with
      (m := (B - dustLimit o) / (reward o + fee o) * (reward o + fee o)).
    + apply Z.mul_le_mono_nonneg_r; lia.
    + rewrite Z.mul_comm. apply Z.mul_div_le. lia.
  - replace (dustLimit o <=? B - Z.of_nat k * (reward o + fee o)) with false;
      [reflexivity|].
    symmetry. apply Z.leb_gt.
    assert (B - dustLimit o < Z.of_nat k * (reward o + fee o)); [|lia].
    apply Z.lt_le_trans with
      (m := ((B - dustLimit o) / (reward o + fee o) + 1) * (reward o + fee o)).
    + pose proof (Z.div_mod (B - dustLimit o) (reward o + fee o) ltac:(lia)).
      pose proof (Z.mod_pos_bound (B - dustLimit o) (reward o + fee o) Hp).
      nia.
    + apply Z.mul_le_mono_nonneg_r; lia.
Qed.

(** X15. The life of an organism whose dust limit is an amount (not
    negative): with the reproductions spending each other's continuation,
    the [k]-th one leaves a continuation exactly when
    [k] is at most the floor of (balance - dust limit) / (reward + fee);
    the continuation then holds the balance less [k] times reward plus fee,
    at the generation plus [k], with every other field of the state as it
    was. *)
Theorem lifespan (k : nat) (o : Organism) (B : Z) (pkh : ByteString) :
  0 <= organismType o <= 127 -> 0 <= generation o ->
  generation o + Z.of_nat k <= 2147483647 ->
  0 <= dustLimit o -> 0 < reward o + fee o -> (0 < k)%nat ->
  (Z.of_nat k <= (B - dustLimit o) / (reward o + fee o) ->
   Lifespan.reproduce k o B pkh
   = Some (Lifespan.aged o (Z.of_nat k),
           B - Z.of_nat k * (reward o + fee o))) /\
  ((B - dustLimit o) / (reward o + fee o) < Z.of_nat k ->
   Lifespan.reproduce k o B pkh = None).
Proof.
  intros Hty Hg Hk _ Hp Hpos. now apply reproduce_floor.
Qed.

Lemma lifespan_witness :
  Lifespan.reproduce 24 Examples.organismA 100000 Examples.claimer
  = Some (Lifespan.aged Examples.organismA 24, 4000) /\
  Lifespan.reproduce 25 Examples.organismA 100000 Examples.claimer = None.
Proof.
  split.
  - apply (lifespan 24 Examples.organismA 100000 Examples.claimer);
      vm_compute; try split; try discriminate; try reflexivity; lia.
  - apply (lifespan 25 Examples.organismA 100000 Examples.claimer);
      vm_compute; try split; try discriminate; try reflexivity; lia.
Defined.

End Generations.

(** ** Spawning *)

Section SpawnFeed.

Import Contract.

Lemma jlt_false (a b : Z) : jlt (Some a) (Some b) = false -> b <= a.
Proof. cbn [jlt]. intros H. apply Z.ltb_ge in H. exact H. Qed.

(** What [spawn] has checked and built when it assembles a
    transaction. *)
Lemma spawn_inv (args : Spawn.Args) (funder : ByteString)
    (utxos : option (list Fund.Utxo)) (o : Organism) (outs : list Output) :
  Spawn.spawn args funder utxos = Spawn.Assembled o outs ->
  exists ty rw fe b us,
    Spawn.TYPE args = Some ty /\ Spawn.REWARD args = Some rw /\
    Spawn.FEE args = Some fe /\ Spawn.BUDGET args = Some b /\
    utxos = Some us /\
    0 <= ty <= 255 /\ 0 <= b /\ b + 3000 <= Fund.sumValues us /\
    o = {| organismType := ty; reward := rw; fee := fe;
           dustLimit := 546; spawnTxid := Spawn.zeroTxid; generation := 0 |} /\
    org1Script 0 ty Spawn.zeroTxid <> None /\
    outs = [{| script := StateScript o; satoshis := b |};
            {| script := DataScript
                 match org1Script 0 ty Spawn.zeroTxid with
                 | Some s => s
                 | None => EmptyString
                 end;
               satoshis := 0 |}] ++
           (if 546 <? Fund.sumValues us - b - 3000
            then [{| script := P2PKH funder;
                     satoshis := Fund.sumValues us - b - 3000 |}]
            else []).
Proof.
  unfold Spawn.spawn. intros H.
  destruct (Spawn.TYPE args) as [ty|]; [|discriminate].
  destruct (Spawn.REWARD args) as [rw|]; [|discriminate].
  destruct (Spawn.FEE args) as [fe|]; [|discriminate].
  destruct utxos as [[|u us]|]; try discriminate.
  destruct (jlt _ _) eqn:Hfunds; [discriminate|].
  destruct (Spawn.BUDGET args) as [b|]; [|discriminate].
  cbn [Bsv.newOutput] in H.
  destruct (0 <=? b) eqn:Hb; [|discriminate].
  unfold writeUInt32LE, writeUInt8 in H. cbn [Z.leb Z.compare andb] in H.
  destruct ((0 <=? ty) && (ty <=? 255)) eqn:Hty; [|discriminate].
  injection H as <- <-.
  apply andb_true_iff in Hty. destruct Hty as [Hty1 Hty2].
  apply Z.leb_le in Hty1, Hty2, Hb.
  cbn [jadd] in Hfunds. apply jlt_false in Hfunds. unfold Spawn.SPAWN_FEE in Hfunds.
  exists ty, rw, fe, b, (u :: us).
  assert (Hs : org1Script 0 ty Spawn.zeroTxid
               = Some (toHex (Bsv.buildSafeDataOut
                                [ORG1_bytes; leBytes 1 ty; leBytes 4 0; repeat 0 32]))).
  { unfold org1Script, writeUInt32LE, writeUInt8. cbn [Z.leb Z.compare andb].
    replace ((0 <=? ty) && (ty <=? 255)) with true
      by (symmetry; apply andb_true_iff; split; apply Z.leb_le; lia).
    reflexivity. }
  repeat split; try assumption; try reflexivity; try lia.
  - rewrite Hs. discriminate.
  - rewrite Hs. cbn [jsub jgt jlt toIndex]. unfold Spawn.SPAWN_FEE, Spawn.DUST_LIMIT.
    reflexivity.
Qed.



(** X17. The number of generations spawn.cjs announces is the life of the
    organism it creates, of a type of at most 127: of the reproductions
    that spend each other's continuation, starting with the first output of
    the spawn, the [k]-th (for [k] below 2^31, the generations the contract
    can count) leaves a continuation exactly when [k] is at most that
    number. *)
Theorem spawn_announces_lifespan (args : Spawn.Args) (funder pkh : ByteString)
    (utxos : option (list Fund.Utxo)) (o : Organism) (outs : list Output)
    (m : Z) (k : nat) :
  Spawn.spawn args funder utxos = Spawn.Assembled o outs ->
  Spawn.maxGens args = Some m ->
  organismType o <= 127 -> 0 < reward o + fee o ->
  (0 < k)%nat -> Z.of_nat k <= 2147483647 ->
  exists b,
    Lifespan.continuation outs = Some (o, b) /\
    (Z.of_nat k <= m ->
     Lifespan.reproduce k o b pkh
     = Some (Lifespan.aged o (Z.of_nat k),
             b - Z.of_nat k * (reward o + fee o))) /\
    (m < Z.of_nat k -> Lifespan.reproduce k o b pkh = None).
Proof.
  intros H Hm Hty Hp Hk Hk'.
  destruct (spawn_inv args funder utxos o outs H)
    as (ty & rw & fe & b & us & HT & HR & HF & HB & Hu & Hty' & Hb & Hfunds
        & Ho & Hs & Houts).
  exists b. split; [rewrite Houts; reflexivity|].
  unfold Spawn.maxGens in Hm. rewrite HB, HR, HF in Hm.
  cbn [jsub jadd Spawn.floorDiv] in Hm.
  destruct (rw + fe =? 0); [discriminate|]. injection Hm as <-.
  assert (Hf : reward o = rw /\ fee o = fe /\ dustLimit o = 546 /\
               generation o = 0 /\ organismType o = ty)
    by (subst o; repeat split).
  destruct Hf as (Er & Ef & Ed & Eg & Et).
  pose proof (reproduce_floor k o b pkh ltac:(lia) ltac:(lia) ltac:(lia) Hp Hk)
    as [Hlive Hdead].
  rewrite Er, Ef, Ed in Hlive, Hdead. unfold Spawn.DUST_LIMIT.
  rewrite Er, Ef. split; assumption.
Qed.

Lemma spawn_announces_lifespan_witness :
  exists o outs b,
    Spawn.spawn Notions.argsDefault Examples.funder (Some Notions.spawnUtxos)
    = Spawn.Assembled o outs /\
    Lifespan.continuation outs = Some (o, b) /\
    Lifespan.reproduce 25 o b Examples.claimer = None.
Proof.
  eexists. eexists.
  destruct (spawn_announces_lifespan Notions.argsDefault Examples.funder
              Examples.claimer (Some Notions.spawnUtxos) _ _ 24 25 eq_refl eq_refl)
    as (b & Hc & _ & Hdead).
  - vm_compute. discriminate.
  - reflexivity.
  - lia.
  - lia.
  - exists b. split; [reflexivity|]. split; [exact Hc|].
    apply Hdead. lia.
Defined.

End SpawnFeed.

(** ** The cache files and the scan *)

Section Scan.

Import Walker Notions.

Variable L : Ledger.

(** X21. A cache in shape decides the trace: the lineage file is named by
    the first 16 characters of the transaction given, and from a
    non-empty lineage in shape the walk goes on where that lineage ends,
    so that any two transactions that share those characters are traced
    alike, to the same file. *)
Theorem cache_decides_trace (fuel : nat) (st : Report.Store) (a b : string)
    (l : list Entry) :
  Report.cacheKey a = Report.cacheKey b ->
  st (Report.cacheKey a) = Some l -> l <> [] -> lineageOk l ->
  Report.traceStored fuel L st a = Report.traceStored fuel L st b.
Proof.
  intros Hkey Hst Hne Hok. unfold Report.traceStored.
  rewrite <- Hkey, Hst.
  assert (Hres : resume (Some l) a = resume (Some l) b).
  { induction l as [|last init _] using rev_ind; [contradiction|].
    rewrite !resume_snoc.
    destruct Hok as (_ & Hin & _).
    destruct (Hin last) as [Ha _]; [apply in_or_app; right; now left|].
    rewrite Ha. destruct (truthyStr (spentBy last)); reflexivity. }
  unfold traceLineage. now rewrite Hres.
Qed.

Lemma scanAll_returned (fuel : nat) (st st1 : Report.Store)
    (pre rest : list string) :
  Report.scanAll fuel L st pre = Some (st1, true) ->
  Report.scanAll fuel L st (pre ++ rest) = Report.scanAll fuel L st1 rest.
Proof.
  revert st. induction pre as [|id pre IH]; intros st H.
  - cbn in H. injection H as <-. reflexivity.
  - cbn [List.app Report.scanAll] in *.
    destruct (Report.traceStored fuel L st id) as [[st' f]|]; [|discriminate].
    destruct f; try discriminate. now apply IH.
Qed.

(** X22. One exception ends the scan: when the traces of the organisms
    before it return and the trace of one organism throws, in the loop or
    in the summary, [scanAll] stops there, and the organisms listed after
    it are not traced: their cache files are as that trace left them. *)
Theorem scan_stops_at_exception (fuel : nat) (st st1 st2 : Report.Store)
    (pre post : list string) (bad : string) (f : Report.Final) :
  Report.scanAll fuel L st pre = Some (st1, true) ->
  Report.traceStored fuel L st1 bad = Some (st2, f) ->
  (forall l sm, f <> Report.Returned l sm) ->
  Report.scanAll fuel L st (pre ++ bad :: post) = Some (st2, false).
Proof.
  intros Hpre Hbad Hf. rewrite (scanAll_returned fuel st st1 pre _ Hpre).
  cbn [Report.scanAll]. rewrite Hbad.
  destruct f; [reflexivity | reflexivity |].
  exfalso. exact (Hf l s eq_refl).
Qed.

End Scan.

Lemma cache_decides_trace_witness :
  Report.traceStored 3 Examples.ledger2
    (Report.write (fun _ => None) (Report.cacheKey Examples.idSpawn)
                  [Examples.entry0; Examples.entry1])
    Examples.idSpawn
  = Report.traceStored 3 Examples.ledger2
      (Report.write (fun _ => None) (Report.cacheKey Examples.idSpawn)
                    [Examples.entry0; Examples.entry1])
      (Examples.idSpawn ++ "ff").
Proof.
  apply (cache_decides_trace Examples.ledger2 3 _ Examples.idSpawn
           (Examples.idSpawn ++ "ff") [Examples.entry0; Examples.entry1]).
  - reflexivity.
  - reflexivity.
  - discriminate.
  - exact ledger2_lineageOk.
Defined.

Lemma scan_stops_at_exception_witness :
  exists st2,
    Report.scanAll 3 Examples.ledger2 (fun _ => None)
      ([Examples.idSpawn] ++ Examples.zeroTxid :: [Examples.idGen1])
    = Some (st2, false) /\
    st2 (Report.cacheKey Examples.idGen1) = None.
Proof.
  eexists. split.
  - apply (scan_stops_at_exception Examples.ledger2 3 (fun _ => None)
             (Report.write (fun _ => None) (Report.cacheKey Examples.idSpawn)
                           [Examples.entry0; Examples.entry1])
             _ [Examples.idSpawn] [Examples.idGen1] Examples.zeroTxid
             (Report.WrittenThenRejected [])).
    + reflexivity.
    + reflexivity.
    + discriminate.
  - reflexivity.
Defined.
